(** * price-scraper: the /api/scrape handler of [server.js], embedded in Rocq

    The development follows the newest revision of the server (the one with
    the shared browser, the 15-minute cache and the Costco fast path).

    Conventions of the embedding.
    - A JavaScript string is a Rocq [string] holding its UTF-8 encoding.  The
      source only ever tests characters against ASCII characters (comma,
      digits, quotes, [>]) and against the white space set of [trim], so the
      byte-level functions below act like the code-unit-level originals on
      every well-formed string.
    - A JavaScript number is kept as the exact decimal that [parseFloat]
      reads ([Decimal neg digits exp10] is [(-1)^neg * digits * 10^exp10]);
      the engine rounds that value to the nearest double, and a decimal too
      large to round to a finite double is read as an infinity.
    - Every awaited call into the outside world (URL parsing, [fetch],
      Playwright) is answered by an oracle record [Env]; the handler is a
      function of the oracle and of the module-level store. *)

From Stdlib Require Import ZArith QArith Ascii String List Bool Lia.
From stdpp Require Import base option list strings gmap.

Local Open Scope string_scope.
Local Open Scope list_scope.

(** ** Characters and strings *)

Module Js.

Definition code (c : ascii) : N := N_of_ascii c.

Definition is_digit (c : ascii) : bool :=
  (48 <=? code c)%N && (code c <=? 57)%N.

(** One-byte members of the ECMAScript WhiteSpace and LineTerminator sets:
    TAB, LF, VT, FF, CR, SP. *)
Definition ws1 (a : ascii) : bool :=
  ((9 <=? code a)%N && (code a <=? 13)%N) || (code a =? 32)%N.

(** U+00A0 is C2 A0. *)
Definition ws2 (a b : ascii) : bool :=
  (code a =? 194)%N && (code b =? 160)%N.

(** U+1680, U+2000..U+200A, U+2028, U+2029, U+202F, U+205F, U+3000, U+FEFF. *)
Definition ws3 (a b c : ascii) : bool :=
  ((code a =? 225)%N && (code b =? 154)%N && (code c =? 128)%N)
  || ((code a =? 226)%N && (code b =? 128)%N
      && (((128 <=? code c)%N && (code c <=? 138)%N)
          || (code c =? 168)%N || (code c =? 169)%N || (code c =? 175)%N))
  || ((code a =? 226)%N && (code b =? 129)%N && (code c =? 159)%N)
  || ((code a =? 227)%N && (code b =? 128)%N && (code c =? 128)%N)
  || ((code a =? 239)%N && (code b =? 187)%N && (code c =? 191)%N).

(** [String.prototype.trimStart]. *)
Fixpoint trimStart (s : string) : string :=
  match s with
  | String a r1 =>
      if ws1 a then trimStart r1
      else match r1 with
           | String b r2 =>
               if ws2 a b then trimStart r2
               else match r2 with
                    | String c r3 => if ws3 a b c then trimStart r3 else s
                    | EmptyString => s
                    end
           | EmptyString => s
           end
  | EmptyString => s
  end.

Fixpoint rev_onto (s acc : string) : string :=
  match s with
  | EmptyString => acc
  | String c r => rev_onto r (String c acc)
  end.

Definition reverse (s : string) : string := rev_onto s EmptyString.

(** [trimStart] on the mirrored string: the multi-byte sequences are met
    last byte first. *)
Fixpoint trimStart_mirror (s : string) : string :=
  match s with
  | String a r1 =>
      if ws1 a then trimStart_mirror r1
      else match r1 with
           | String b r2 =>
               if ws2 b a then trimStart_mirror r2
               else match r2 with
                    | String c r3 => if ws3 c b a then trimStart_mirror r3 else s
                    | EmptyString => s
                    end
           | EmptyString => s
           end
  | EmptyString => s
  end.

(** [String.prototype.trimEnd]. *)
Definition trimEnd (s : string) : string :=
  reverse (trimStart_mirror (reverse s)).

(** [String.prototype.trim]. *)
Definition trim (s : string) : string := trimEnd (trimStart s).

(** [hay.startsWith(needle)]. *)
Fixpoint startsWith (needle hay : string) : bool :=
  match needle, hay with
  | EmptyString, _ => true
  | String a n, String b h => Ascii.eqb a b && startsWith n h
  | String _ _, EmptyString => false
  end.

(** [hay.includes(needle)]. *)
Fixpoint includes (needle hay : string) : bool :=
  startsWith needle hay
  || match hay with
     | String _ r => includes needle r
     | EmptyString => false
     end.

(** [hay.endsWith(needle)]; this is what a regular expression [/needle$/]
    made of literal characters tests. *)
Fixpoint endsWith (needle hay : string) : bool :=
  String.eqb hay needle
  || match hay with
     | String _ r => endsWith needle r
     | EmptyString => false
     end.

(** [split] on commas: always at least one segment. *)
Fixpoint split_comma (s : string) : list string :=
  match s with
  | EmptyString => [EmptyString]
  | String c r =>
      if Ascii.eqb c ","%char then EmptyString :: split_comma r
      else match split_comma r with
           | seg :: segs => String c seg :: segs
           | [] => [String c EmptyString]
           end
  end.

(** [join] with commas. *)
Definition join_comma (l : list string) : string := String.concat "," l.

(** Truthiness of a string: [Boolean(s)]. *)
Definition nonempty (s : string) : bool :=
  match s with EmptyString => false | String _ _ => true end.

(** ASCII part of [toLowerCase]; host names of parsed URLs are ASCII. *)
Definition lower_char (c : ascii) : ascii :=
  if (65 <=? code c)%N && (code c <=? 90)%N
  then ascii_of_N (code c + 32) else c.

Fixpoint toLowerCase (s : string) : string :=
  match s with
  | EmptyString => EmptyString
  | String c r => String (lower_char c) (toLowerCase r)
  end.

End Js.

(** ** Numbers read by [parseFloat] *)

(** A Number as the handler can meet it.  [Decimal neg digits exp10]
    stands for the double nearest to [(-1)^neg * digits * 10^exp10];
    [parseFloat] builds it only for a decimal that rounds to a finite
    double. *)
Inductive number : Type :=
  | NaN
  | Infinity (neg : bool)
  | Decimal (neg : bool) (digits : N) (exp10 : Z).

Definition isNaN (n : number) : bool :=
  match n with NaN => true | _ => false end.

(** The decimal that a finite number stands for, as a rational. *)
Definition number_value (n : number) : option Q :=
  match n with
  | Decimal neg d e =>
      let v := (inject_Z (Z.of_N d) * Qpower (10 # 1) e)%Q in
      Some (if neg then Qopp v else v)
  | _ => None
  end.

Module Parse.

Import Js.

(** Longest prefix of decimal digits, and what follows it. *)
Fixpoint span_digits (s : string) : string * string :=
  match s with
  | String c r =>
      if is_digit c
      then let '(ds, rest) := span_digits r in (String c ds, rest)
      else (EmptyString, s)
  | EmptyString => (EmptyString, EmptyString)
  end.

Fixpoint digits_value_from (acc : N) (ds : string) : N :=
  match ds with
  | EmptyString => acc
  | String c r => digits_value_from (10 * acc + (code c - 48))%N r
  end.

Definition digits_value (ds : string) : N := digits_value_from 0 ds.

(** ExponentPart of StrDecimalLiteral: [e] or [E], an optional sign and at
    least one digit; anything else is not part of the literal. *)
Definition exponent_part (s : string) : Z :=
  match s with
  | String c r =>
      if Ascii.eqb c "e"%char || Ascii.eqb c "E"%char then
        let '(neg, r') :=
          match r with
          | String "-"%char r' => (true, r')
          | String "+"%char r' => (false, r')
          | _ => (false, r)
          end in
        let '(ds, _) := span_digits r' in
        if nonempty ds
        then (if neg then - Z.of_N (digits_value ds) else Z.of_N (digits_value ds))%Z
        else 0%Z
      else 0%Z
  | EmptyString => 0%Z
  end.

(** The literal that [parseFloat] reads: skip leading white space, then
    take the longest prefix that is a StrDecimalLiteral; [NaN] when there is
    none. *)
Definition literal (s : string) : number :=
  let t := trimStart s in
  let '(neg, u) :=
    match t with
    | String "-"%char r => (true, r)
    | String "+"%char r => (false, r)
    | _ => (false, t)
    end in
  if startsWith "Infinity" u then Infinity neg
  else
    let '(ip, r1) := span_digits u in
    match r1 with
    | String "."%char r =>
        let '(fp, r2) := span_digits r in
        if nonempty ip || nonempty fp
        then Decimal neg (digits_value (ip ++ fp))
               (exponent_part r2 - Z.of_nat (String.length fp))
        else NaN
    | _ =>
        if nonempty ip
        then Decimal neg (digits_value ip) (exponent_part r1)
        else NaN
    end.

(** The largest double is [2^1024 - 2^971].  A magnitude from
    [2^1024 - 2^970] on is nearer to [2^1024] than to it (or half way, and
    the tie goes to the even significand, which is the one of [2^1024]):
    it rounds to an infinity. *)
Definition overflow_limit : Z := (2 ^ 1024 - 2 ^ 970)%Z.

(** [digits * 10^exp10] rounds to an infinity. *)
Definition overflows (digits : N) (exp10 : Z) : bool :=
  if (0 <=? exp10)%Z
  then (overflow_limit <=? Z.of_N digits * 10 ^ exp10)%Z
  else (overflow_limit * 10 ^ (- exp10) <=? Z.of_N digits)%Z.

(** The global [parseFloat]: the Number value of the literal. *)
Definition parseFloat (s : string) : number :=
  match literal s with
  | Decimal neg digits exp10 =>
      if overflows digits exp10 then Infinity neg
      else Decimal neg digits exp10
  | n => n
  end.

End Parse.

(** ** Values, plain objects and the selector catalog *)

(** What a slot of [out] or of the [values] array can hold: a string, a
    number, or a member that a plain object inherits from
    [Object.prototype] (a built-in function, or the prototype object itself
    for [__proto__]). *)
Inductive jsval : Type :=
  | VStr (s : string)
  | VNum (n : number)
  | VBuiltin (name : string).

(** The property names every object literal inherits from
    [Object.prototype]. *)
Definition object_prototype : list string :=
  [ "constructor"; "hasOwnProperty"; "isPrototypeOf"; "propertyIsEnumerable";
    "toLocaleString"; "toString"; "valueOf"; "__proto__";
    "__defineGetter__"; "__defineSetter__";
    "__lookupGetter__"; "__lookupSetter__" ].

Definition inherited (k : string) : bool :=
  existsb (String.eqb k) object_prototype.

(** Result of the property read [o[k]] on an object literal whose own
    properties are the finite map [o]. *)
Inductive property (V : Type) : Type :=
  | Own (v : V)
  | FromPrototype
  | Undefined.
Arguments Own {V} v.
Arguments FromPrototype {V}.
Arguments Undefined {V}.

Definition obj_get {V : Type} (o : gmap string V) (k : string) : property V :=
  match o !! k with
  | Some v => Own v
  | None => if inherited k then FromPrototype else Undefined
  end.

(** The assignment [o[k] = v] of a primitive [v]: it creates or overwrites
    an own property, except for [__proto__], whose inherited setter ignores
    primitives. *)
Definition obj_set (o : gmap string jsval) (k : string) (v : jsval)
  : gmap string jsval :=
  if String.eqb k "__proto__" then o else <[k:=v]> o.

(** The [selectors] literal of the handler. *)
Definition selectors_entries : list (string * list string) :=
  [ ("price",
      [ "#corePrice_feature_div .a-offscreen";
        "#apex_desktop .a-offscreen";
        "#tp_price_block_total_price_ww .a-offscreen";
        "#priceblock_ourprice";
        "#priceblock_dealprice" ]);
    ("title", [ "#productTitle"; "meta[property='og:title']" ]);
    ("rating",
      [ "#acrPopover .a-icon-alt"; "span[data-hook='rating-out-of-text']" ]);
    ("c_price", [ "meta[property='product:price:amount']" ]);
    ("c_title", [ "meta[property='og:title']" ]) ].

Definition selectors : gmap string (list string) :=
  list_to_map selectors_entries.

(** ** The value normalizer (the tail of the extract loop) *)

Module Normalizer.

Import Js Parse.

(** The character class [[^\d.,]] complemented: what the first [replace]
    keeps. *)
Definition kept (c : ascii) : bool :=
  is_digit c || Ascii.eqb c "."%char || Ascii.eqb c ","%char.

(** The first [replace]: drop every character of the class [[^\d.,]]. *)
Fixpoint strip (s : string) : string :=
  match s with
  | EmptyString => EmptyString
  | String c r => if kept c then String c (strip r) else strip r
  end.

(** The second [replace], comma to period: a string pattern replaces the
    first occurrence only. *)
Fixpoint comma_to_period (s : string) : string :=
  match s with
  | EmptyString => EmptyString
  | String c r =>
      if Ascii.eqb c ","%char then String "."%char r
      else String c (comma_to_period r)
  end.

(** Truthiness of [value], which is a string or [null] ([None]). *)
Definition truthy (value : option string) : bool :=
  match value with Some s => nonempty s | None => false end.

(** The disjunction of [value] with the empty string. *)
Definition or_empty (value : option string) : string :=
  match value with Some s => s | None => EmptyString end.

(** Lines 135-141: what is stored in [out[key]] for the extracted [value]. *)
Definition normalize (key : string) (value : option string) : jsval :=
  if includes "price" key && truthy value then
    let num := comma_to_period (strip (or_empty value)) in
    let parsed := parseFloat num in
    if isNaN parsed then VStr (or_empty value) else VNum parsed
  else VStr (or_empty value).

End Normalizer.

(** ** The static fetch extractor's regular expressions *)

Module Meta.

Import Js.

Definition is_quote (c : ascii) : bool :=
  Ascii.eqb c "034"%char || Ascii.eqb c "039"%char.

(** Match the literal [lit] at the head of [s] under the [i] flag and return
    what follows.  The literals of the two expressions are ASCII, and a
    non-ASCII character never folds onto an ASCII one. *)
Fixpoint literal_ci (lit s : string) : option string :=
  match lit, s with
  | EmptyString, _ => Some s
  | String a l, String b r =>
      if Ascii.eqb (lower_char a) (lower_char b) then literal_ci l r else None
  | String _ _, EmptyString => None
  end.

(** One character of the two-quote class: a double or a single quote. *)
Definition quote (s : string) : option string :=
  match s with
  | String c r => if is_quote c then Some r else None
  | EmptyString => None
  end.

(** Longest prefix without a quote, and what follows it. *)
Fixpoint span_unquoted (s : string) : string * string :=
  match s with
  | String c r =>
      if is_quote c then (EmptyString, s)
      else let '(v, rest) := span_unquoted r in (String c v, rest)
  | EmptyString => (EmptyString, EmptyString)
  end.

(** The tail of both expressions at the head of [s]: the literal
    [content=], a quote, a non-empty group of characters that are not
    quotes, a quote.  The result is the captured group; the greedy group can
    only end at the first quote, so there is nothing to backtrack into. *)
Definition content_attr (s : string) : option string :=
  match literal_ci "content=" s with
  | Some r =>
      match quote r with
      | Some r' =>
          let '(v, rest) := span_unquoted r' in
          if nonempty v && nonempty rest then Some v else None
      | None => None
      end
  | None => None
  end.

(** [[^>]*] followed by [content_attr]: the star is greedy, so the longest
    extension is tried first and shorter ones on backtracking. *)
Fixpoint skip_then_content (s : string) : option string :=
  match s with
  | String c r =>
      if Ascii.eqb c ">"%char then content_attr s
      else match skip_then_content r with
           | Some v => Some v
           | None => content_attr s
           end
  | EmptyString => content_attr s
  end.

(** The whole expression anchored at the head of [s]. *)
Definition match_here (name s : string) : option string :=
  match literal_ci "property=" s with
  | Some r1 =>
      match quote r1 with
      | Some r2 =>
          match literal_ci name r2 with
          | Some r3 =>
              match quote r3 with
              | Some r4 => skip_then_content r4
              | None => None
              end
          | None => None
          end
      | None => None
      end
  | None => None
  end.

(** [html.match(re)]: the leftmost position at which the expression
    matches. *)
Fixpoint search (name html : string) : option string :=
  match match_here name html with
  | Some v => Some v
  | None =>
      match html with
      | String _ r => search name r
      | EmptyString => None
      end
  end.

(** Group 1 of [html.match(re)], or the empty string when there is no
    match. *)
Definition meta_content (name html : string) : string :=
  match search name html with Some v => v | None => EmptyString end.

End Meta.

(** ** The world outside the process *)

(** How an awaited operation settles. *)
Inductive outcome (A : Type) : Type :=
  | Resolved (a : A)
  | Rejected (message : string).
Arguments Resolved {A} a.
Arguments Rejected {A} message.

(** An element handle: what [getAttribute("content")] and [textContent()]
    settle to ([None] is [null]). *)
Record Element : Type := {
  getAttribute_content : outcome (option string);
  textContent : outcome (option string)
}.

(** The response of the global [fetch]. *)
Record FetchResponse : Type := {
  ok : bool;
  text : outcome string
}.

(** Answers of the outside world during one request. *)
Record Env : Type := {
  now_check : Z;                          (* Date.now() of the TTL test *)
  now_store : Z;                          (* Date.now() of cache.set *)
  url_hostname : string -> option string; (* new URL(String(url)).hostname,
                                             None when the constructor throws *)
  fetch : string -> outcome FetchResponse;
  launch : outcome unit;                  (* chromium.launch, if this request
                                             is the one that starts it *)
  newContext : outcome unit;
  newPage : outcome unit;
  route : outcome unit;
  setExtraHTTPHeaders : outcome unit;
  goto : string -> outcome unit;
  waitForTimeout : outcome unit;
  query : nat -> string -> outcome (option Element); (* n-th call of page.$ *)
  close : outcome unit
}.

(** What the handler does to the outside world, in order. *)
Inductive event : Type :=
  | EFetch (url : string)
  | ELaunch (browser : nat)
  | ENewContext (context : nat)
  | ENewPage (context : nat)
  | ERoute
  | ESetExtraHTTPHeaders
  | EGoto (url : string)
  | EWaitForTimeout
  | EQuery (selector : string)
  | EGetAttribute
  | ETextContent
  | EClose (context : nat).

(** ** Module-level state *)

(** The JSON object of a successful answer. *)
Record payload : Type := {
  headers : list string;
  values : list jsval;
  raw : gmap string jsval
}.

(** A value of the [cache] map: the object with fields [t] and [data].
    The stored [data] object shares [wanted] and [out] with the handler that
    built it; the source writes to neither after [cache.set] (it answers and
    returns), and a cache hit only hands [hit.data] to [res.json], so an
    entry is kept here by value. *)
Record entry : Type := {
  entry_t : Z;
  entry_data : payload
}.

(** The promise kept in [browserPromise]: which launch it stands for and how
    it settles. *)
Record promise : Type := {
  launch_id : nat;
  settles : outcome unit
}.

Record Store : Type := {
  cache : gmap string entry;
  browserPromise : option promise;
  launches : nat;      (* calls of chromium.launch so far *)
  contexts : nat       (* browser contexts created so far *)
}.

Definition initial_store : Store :=
  {| cache := ∅; browserPromise := None; launches := 0; contexts := 0 |}.

(** [TTL = 15 * 60 * 1000] milliseconds. *)
Definition TTL : Z := 15 * 60 * 1000.

(** The effect of [cache.set(key, e)] on the store. *)
Definition store_cache_set (key : string) (e : entry) (s : Store) : Store :=
  {| cache := <[key:=e]> (cache s);
     browserPromise := browserPromise s;
     launches := launches s;
     contexts := contexts s |}.

(** The effect of a resolved [browser.newContext(...)] on the store. *)
Definition store_open_context (s : Store) : Store :=
  {| cache := cache s;
     browserPromise := browserPromise s;
     launches := launches s;
     contexts := S (contexts s) |}.

(** ** A monad for the body of an async function *)

Record Run : Type := {
  store : Store;
  log : list event;
  queries : nat        (* calls of page.$ made by this request *)
}.

Definition M (A : Type) : Type := Run -> outcome A * Run.

Definition ret {A : Type} (a : A) : M A := fun r => (Resolved a, r).

Definition throw {A : Type} (message : string) : M A :=
  fun r => (Rejected message, r).

Definition bind {A B : Type} (m : M A) (k : A -> M B) : M B :=
  fun r =>
    match m r with
    | (Resolved a, r') => k a r'
    | (Rejected e, r') => (Rejected e, r')
    end.

Notation "'let*' x := m 'in' k" := (bind m (fun x => k))
  (at level 10, x name, m at level 100, k at level 200).
Notation "m ;;; k" := (bind m (fun _ => k))
  (at level 100, k at level 200, right associativity).

(** [await] of something that settles as the oracle says. *)
Definition await {A : Type} (o : outcome A) : M A := fun r => (o, r).

Definition emit (e : event) : M unit :=
  fun r => (Resolved tt,
            {| store := store r; log := log r ++ [e]; queries := queries r |}).

Definition get_store : M Store := fun r => (Resolved (store r), r).

Definition put_store (s : Store) : M unit :=
  fun r => (Resolved tt, {| store := s; log := log r; queries := queries r |}).

Definition next_query : M nat :=
  fun r => (Resolved (queries r),
            {| store := store r; log := log r; queries := S (queries r) |}).

(** [cache.set(key, e)]. *)
Definition cache_set (key : string) (e : entry) : M unit :=
  let* s := get_store in
  put_store (store_cache_set key e s).

(** ** The browser session manager *)

(** [getBrowser] up to its [return]: there is no [await] between the test
    of [browserPromise] and its assignment, and the async arrow runs
    synchronously up to the call of [chromium.launch], so the whole body is
    one uninterrupted step on the store. *)
Definition getBrowser_step (launch_settles : outcome unit) (s : Store)
  : promise * Store * list event :=
  match browserPromise s with
  | Some p => (p, s, [])
  | None =>
      let p := {| launch_id := launches s; settles := launch_settles |} in
      (p,
       {| cache := cache s;
          browserPromise := Some p;
          launches := S (launches s);
          contexts := contexts s |},
       [ELaunch (launches s)])
  end.

Definition getBrowser (env : Env) : M promise :=
  fun r =>
    let '(p, s, evs) := getBrowser_step (launch env) (store r) in
    (Resolved p, {| store := s; log := log r ++ evs; queries := queries r |}).

(** [await] of the launch promise: the browser handle, or the launch
    error. *)
Definition await_browser (p : promise) : M nat :=
  match settles p with
  | Resolved _ => ret (launch_id p)
  | Rejected e => throw e
  end.

(** [browser.newContext(...)]: a context is acquired when the call
    resolves. *)
Definition open_context (env : Env) : M nat :=
  await (newContext env) ;;;
  let* s := get_store in
  put_store (store_open_context s) ;;;
  emit (ENewContext (contexts s)) ;;;
  ret (contexts s).

(** ** The static fetch extractor *)

Record meta : Type := {
  c_price : string;
  c_title : string
}.

(** What [fetchCostcoMeta] returns: [None] is [null].  Its [try] swallows
    every error of [fetch] and of [resp.text()]. *)
Definition fetched_meta (env : Env) (targetUrl : string) : option meta :=
  match fetch env targetUrl with
  | Rejected _ => None
  | Resolved resp =>
      if negb (ok resp) then None
      else match text resp with
           | Rejected _ => None
           | Resolved html =>
               Some {| c_price := Meta.meta_content "product:price:amount" html;
                       c_title := Meta.meta_content "og:title" html |}
           end
  end.

Definition fetchCostcoMeta (env : Env) (targetUrl : string) : M (option meta) :=
  emit (EFetch targetUrl) ;;;
  ret (fetched_meta env targetUrl).

(** ** The extraction engine *)

Import Js Normalizer.

(** The inner loop over the candidates of one field.  [value] is declared
    outside the loop and keeps the last thing assigned to it. *)
Fixpoint try_candidates (env : Env) (cands : list string) (value : option string)
  : M (option string) :=
  match cands with
  | [] => ret value
  | sel :: rest =>
      let* n := next_query in
      emit (EQuery sel) ;;;
      let* el := await (query env n sel) in
      match el with
      | None => try_candidates env rest value
      | Some el =>
          let* value' :=
            if startsWith "meta[" sel then
              emit EGetAttribute ;;; await (getAttribute_content el)
            else
              emit ETextContent ;;;
              let* t := await (textContent el) in
              ret (Some (match t with
                         | Some s => if nonempty (trim s) then trim s
                                     else EmptyString
                         | None => EmptyString
                         end)) in
          if truthy value' then ret value'
          else try_candidates env rest value'
      end
  end.

(** The message of the [TypeError] that [for ... of] raises on a value that
    is not iterable (V8 wording). *)
Definition not_iterable : string := "cands is not iterable".

(** The extract loop over the wanted fields. *)
Fixpoint extract_fields (env : Env) (keys : list string) (out : gmap string jsval)
  : M (gmap string jsval) :=
  match keys with
  | [] => ret out
  | key :: rest =>
      match obj_get selectors key with
      | FromPrototype => throw not_iterable
      | Own cands =>
          let* value := try_candidates env cands (Some EmptyString) in
          extract_fields env rest (obj_set out key (normalize key value))
      | Undefined =>
          let* value := try_candidates env [] (Some EmptyString) in
          extract_fields env rest (obj_set out key (normalize key value))
      end
  end.

(** ** The handler of GET /api/scrape *)

Inductive body : Type :=
  | JError (error : string)
  | JPayload (p : payload).

Record Response : Type := {
  status : nat;
  http_headers : list (string * string);
  json : body
}.

(** The query string, after Express has parsed it: [None] is an absent
    parameter, otherwise the parameter as [String] renders it. *)
Record Request : Type := {
  url : option string;
  fields : option string
}.

(** Line 57: split, trim, drop the empty segments. *)
Definition wanted_of (fields : option string) : list string :=
  List.filter nonempty (List.map trim (split_comma (or_empty fields))).

(** [wanted.includes(k)]. *)
Definition wants (wanted : list string) (k : string) : bool :=
  existsb (String.eqb k) wanted.

(** Line 60. *)
Definition cacheKey (url : string) (wanted : list string) : string :=
  url ++ "::" ++ join_comma wanted.

(** [out[k] ?? ""]. *)
Definition value_of (out : gmap string jsval) (k : string) : jsval :=
  match obj_get out k with
  | Own v => v
  | FromPrototype => VBuiltin k
  | Undefined => VStr EmptyString
  end.

(** The object literal of lines 75 and 146. *)
Definition result_of (wanted : list string) (out : gmap string jsval) : payload :=
  {| headers := wanted; values := List.map (value_of out) wanted; raw := out |}.

(** Line 67. *)
Definition isCostco (hostname : string) : bool :=
  endsWith ".costco.ca" (toLowerCase hostname).

(** The guard of the fast path, line 70. *)
Definition fast_path_guard (hostname : string) (wanted : list string) : bool :=
  isCostco hostname && (wants wanted "c_price" || wants wanted "c_title").

(** Lines 73-74: the fields of [out] that the fast path fills. *)
Definition static_out (wanted : list string) (m : meta) : gmap string jsval :=
  let out : gmap string jsval := ∅ in
  let out := if wants wanted "c_price"
             then obj_set out "c_price" (VStr (c_price m)) else out in
  let out := if wants wanted "c_title"
             then obj_set out "c_title" (VStr (c_title m)) else out in
  out.

(** Lines 75-77. *)
Definition static_answer (env : Env) (key : string) (wanted : list string)
    (m : meta) : M Response :=
  let result := result_of wanted (static_out wanted m) in
  cache_set key {| entry_t := now_store env; entry_data := result |} ;;;
  ret {| status := 200; http_headers := []; json := JPayload result |}.

(** Lines 83-149. *)
Definition browser_path (env : Env) (url key : string) (wanted : list string)
  : M Response :=
  let* p := getBrowser env in
  let* browser := await_browser p in
  let* context := open_context env in
  emit (ENewPage context) ;;; await (newPage env) ;;;
  emit ERoute ;;; await (route env) ;;;
  emit ESetExtraHTTPHeaders ;;; await (setExtraHTTPHeaders env) ;;;
  emit (EGoto url) ;;; await (goto env url) ;;;
  emit EWaitForTimeout ;;; await (waitForTimeout env) ;;;
  let* out := extract_fields env wanted ∅ in
  emit (EClose context) ;;; await (close env) ;;;
  let result := result_of wanted out in
  cache_set key {| entry_t := now_store env; entry_data := result |} ;;;
  ret {| status := 200;
         http_headers := [("Cache-Control", "public, max-age=900")];
         json := JPayload result |}.

(** Lines 64-149: what happens on a cache miss. *)
Definition on_miss (env : Env) (url key : string) (wanted : list string)
  : M Response :=
  match url_hostname env url with
  | None => throw "Invalid URL"
  | Some hostname =>
      if fast_path_guard hostname wanted then
        let* m := fetchCostcoMeta env url in
        match m with
        | Some m => static_answer env key wanted m
        | None => browser_path env url key wanted
        end
      else browser_path env url key wanted
  end.

(** The [try] block, lines 56-149. *)
Definition scrape_body (env : Env) (req : Request) : M Response :=
  let wanted := wanted_of (fields req) in
  if negb (truthy (url req)) || negb (0 <? length wanted)%nat then
    ret {| status := 400; http_headers := [];
           json := JError "Missing url or fields" |}
  else
    let url := or_empty (url req) in
    let key := cacheKey url wanted in
    let* s := get_store in
    match cache s !! key with
    | Some hit =>
        if (now_check env - entry_t hit <? TTL)%Z
        then ret {| status := 200; http_headers := []; json := JPayload (entry_data hit) |}
        else on_miss env url key wanted
    | None => on_miss env url key wanted
    end.

(** The whole handler, with its [catch]: the response sent, the store left
    behind and what was done to the outside world. *)
Definition start (s : Store) : Run := {| store := s; log := []; queries := 0 |}.

(** The [catch] block: a thrown error becomes the 500 answer. *)
Definition settle (x : outcome Response * Run) : Response * Store * list event :=
  let '(o, r) := x in
  (match o with
   | Resolved resp => resp
   | Rejected message =>
       {| status := 500; http_headers := [];
          json := JError (if nonempty message then message else "scrape error") |}
   end,
   store r, log r).

Definition scrape (env : Env) (req : Request) (s : Store)
  : Response * Store * list event :=
  settle (scrape_body env req (start s)).

(** ** Interleaved requests, seen from the store

    Between two [await]s a handler runs without interruption, so whatever
    the interleaving of the requests in flight, the store goes through a
    sequence of the uninterrupted steps below: they are all the places
    where the source touches module-level state. *)

Inductive action : Type :=
  | AGetBrowser (launch_settles : outcome unit)
  | ACacheSet (key : string) (e : entry)
  | AOpenContext.

(** One step; a call of [getBrowser] also hands a promise to its caller. *)
Definition perform (a : action) (s : Store) : option promise * Store :=
  match a with
  | AGetBrowser o =>
      let '(p, s', _) := getBrowser_step o s in (Some p, s')
  | ACacheSet key e => (None, store_cache_set key e s)
  | AOpenContext => (None, store_open_context s)
  end.

(** A schedule run from store [s]: the promises handed out, in order, and
    the final store. *)
Fixpoint perform_all (acts : list action) (s : Store) : list promise * Store :=
  match acts with
  | [] => ([], s)
  | a :: rest =>
      let '(p, s') := perform a s in
      let '(ps, s'') := perform_all rest s' in
      (match p with Some p => p :: ps | None => ps end, s'')
  end.

(** The computation [m] changes the store only by uninterrupted steps of
    the kind listed in [action]. *)
Definition store_steps {A : Type} (m : M A) : Prop :=
  forall r o r', m r = (o, r') ->
    exists acts, store r' = (perform_all acts (store r)).2.

(** The handlers of a process, one after the other. *)
Fixpoint serve (reqs : list (Env * Request)) (s : Store) : Store :=
  match reqs with
  | [] => s
  | (env, req) :: rest => serve rest (scrape env req s).1.2
  end.

(** ** Vocabulary of the specification *)

(** The store either never launched, or launched once and keeps that
    first launch's promise. *)
Definition launched_at_most_once (s : Store) : Prop :=
  (browserPromise s = None /\ launches s = 0)
  \/ (exists p, browserPromise s = Some p /\ launches s = 1 /\ launch_id p = 0).


(** The entry of [cache] that the TTL test of line 62 accepts. *)
Definition fresh_hit (env : Env) (s : Store) (key : string) : option entry :=
  match cache s !! key with
  | Some hit => if (now_check env - entry_t hit <? TTL)%Z then Some hit else None
  | None => None
  end.

(** A field that the static fetch extractor can fill from a meta tag. *)
Definition meta_field (k : string) : bool :=
  String.eqb k "c_price" || String.eqb k "c_title".

(** The static fetch has a usable result: [fetch] resolved with an ok
    status and the body could be read. *)
Definition static_fetch_ok (env : Env) (u : string) : bool :=
  match fetch env u with
  | Resolved resp =>
      ok resp && match text resp with Resolved _ => true | Rejected _ => false end
  | Rejected _ => false
  end.

(** What the session leaves in the log between the creation of context [c]
    and the extract loop. *)
Definition session_prefix (c : nat) (u : string) : list event :=
  [ENewContext c; ENewPage c; ERoute; ESetExtraHTTPHeaders; EGoto u;
   EWaitForTimeout].

Definition is_fetch (e : event) : bool :=
  match e with EFetch _ => true | _ => false end.

Definition is_browser_event (e : event) : bool := negb (is_fetch e).

(** The page reads of the extract loop. *)
Definition is_page_read (e : event) : bool :=
  match e with
  | EQuery _ | EGetAttribute | ETextContent => true
  | _ => false
  end.

(** Run [r'] continues run [r] on the same store, with events that all
    satisfy [P]. *)
Definition extends (P : event -> bool) (r r' : Run) : Prop :=
  store r' = store r
  /\ exists evs, log r' = log r ++ evs /\ forallb P evs = true.

(** How many times context [c] was closed. *)
Definition closes (c : nat) (l : list event) : nat :=
  List.length (List.filter (fun e => match e with
                                     | EClose c' => Nat.eqb c c'
                                     | _ => false
                                     end) l).

Definition cache_control : string * string :=
  ("Cache-Control", "public, max-age=900").

(** The event of the fast path, when the request takes it. *)
Definition fetch_events (env : Env) (u : string) (wanted : list string) : list event :=
  match url_hostname env u with
  | Some h => if fast_path_guard h wanted then [EFetch u] else []
  | None => []
  end.

(** The three ways a request that is neither refused nor served from the
    cache can end. *)
Inductive miss_result (env : Env) (u key : string) (wanted : list string)
    (s : Store) : Response -> Store -> list event -> Prop :=
  | miss_failed (message : string) (s' : Store) (lg : list event) :
      cache s' = cache s ->
      miss_result env u key wanted s
        {| status := 500; http_headers := []; json := JError message |} s' lg
  | miss_static (h : string) (m : meta) :
      url_hostname env u = Some h ->
      fast_path_guard h wanted = true ->
      fetched_meta env u = Some m ->
      miss_result env u key wanted s
        {| status := 200; http_headers := [];
           json := JPayload (result_of wanted (static_out wanted m)) |}
        (store_cache_set key
           {| entry_t := now_store env;
              entry_data := result_of wanted (static_out wanted m) |} s)
        [EFetch u]
  | miss_browser (out : gmap string jsval) (s' : Store) (evs : list event) :
      (forall k, In k wanted -> is_Some (out !! k)) ->
      cache s'
        = <[key := {| entry_t := now_store env;
                      entry_data := result_of wanted out |}]> (cache s) ->
      In (EGoto u) evs ->
      In (ENewContext (contexts s)) evs ->
      closes (contexts s) evs = 1 ->
      miss_result env u key wanted s
        {| status := 200; http_headers := [cache_control];
           json := JPayload (result_of wanted out) |}
        s' (fetch_events env u wanted ++ evs).

(** The 400 answer of line 58. *)
Definition refused : Response :=
  {| status := 400; http_headers := []; json := JError "Missing url or fields" |}.

(** The answer of line 62 for the cache entry [hit]. *)
Definition served (hit : entry) : Response :=
  {| status := 200; http_headers := []; json := JPayload (entry_data hit) |}.

(** A request that passes the guard of line 58. *)
Definition valid (req : Request) : Prop :=
  truthy (url req) = true /\ wanted_of (fields req) <> [].

Definition key_of (req : Request) : string :=
  cacheKey (or_empty (url req)) (wanted_of (fields req)).


(** A string of white space only. *)
Fixpoint all_ws (s : string) : bool :=
  match s with
  | EmptyString => true
  | String a r1 =>
      if ws1 a then all_ws r1
      else match r1 with
           | String b r2 =>
               if ws2 a b then all_ws r2
               else match r2 with
                    | String c r3 => ws3 a b c && all_ws r3
                    | EmptyString => false
                    end
           | EmptyString => false
           end
  end.

(** [s] has no comma. *)
Definition no_comma (s : string) : Prop :=
  ~ In ","%char (list_ascii_of_string s).

(** [t] is [s] with its first comma, if it has one, turned into a period. *)
Inductive first_comma_replaced : string -> string -> Prop :=
  | fcr_none (s : string) :
      no_comma s -> first_comma_replaced s s
  | fcr_some (a b : string) :
      no_comma a ->
      first_comma_replaced (a ++ String ","%char b) (a ++ String "."%char b).

(** A string made of commas and white space only. *)
Fixpoint blank (s : string) : bool :=
  match s with
  | EmptyString => true
  | String a r1 =>
      if Ascii.eqb a ","%char || ws1 a then blank r1
      else match r1 with
           | String b r2 =>
               if ws2 a b then blank r2
               else match r2 with
                    | String c r3 => ws3 a b c && blank r3
                    | EmptyString => false
                    end
           | EmptyString => false
           end
  end.

(** ** Scenarios *)

Module Scenario.

(** An element with text [s] and no [content] attribute. *)
Definition text_element (s : string) : Element :=
  {| getAttribute_content := Resolved None; textContent := Resolved (Some s) |}.

(** A meta element whose [content] attribute is [s]. *)
Definition meta_element (s : string) : Element :=
  {| getAttribute_content := Resolved (Some s);
     textContent := Resolved (Some EmptyString) |}.

(** A world where the static fetch answers [fetched], every browser call
    succeeds but for the navigation, which settles as [navigation], and
    [find] says which element each selector matches.  The clock stands at
    [now]. *)
Definition world (now : Z) (host : string) (fetched : outcome FetchResponse)
    (navigation : outcome unit) (find : string -> option Element) : Env :=
  {| now_check := now;
     now_store := now;
     url_hostname := fun _ => Some host;
     fetch := fun _ => fetched;
     launch := Resolved tt;
     newContext := Resolved tt;
     newPage := Resolved tt;
     route := Resolved tt;
     setExtraHTTPHeaders := Resolved tt;
     goto := fun _ => navigation;
     waitForTimeout := Resolved tt;
     query := fun _ sel => Resolved (find sel);
     close := Resolved tt |}.

Definition nothing : string -> option Element := fun _ => None.

Definition no_fetch : outcome FetchResponse := Rejected "fetch failed".

(** A Costco product page: the price is in a meta tag, both in the raw HTML
    and in the rendered document. *)
Definition costco_html : string :=
  "<html><head><meta property='og:title' content='Kirkland Coffee'>"
  ++ "<meta property='product:price:amount' content='19.99'></head></html>".

Definition costco_find (sel : string) : option Element :=
  if String.eqb sel "meta[property='product:price:amount']"
  then Some (meta_element "19.99")
  else if String.eqb sel "meta[property='og:title']"
  then Some (meta_element "Kirkland Coffee")
  else None.

Definition costco_url : string := "https://www.costco.ca/coffee.product.100.html".

(** The static fetch works. *)
Definition costco_static : Env :=
  world 0 "www.costco.ca"
    (Resolved {| ok := true; text := Resolved costco_html |})
    (Resolved tt) costco_find.

(** The static fetch is refused (say, a 403), so the browser renders the
    same page. *)
Definition costco_rendered : Env :=
  world 0 "www.costco.ca"
    (Resolved {| ok := false; text := Resolved EmptyString |})
    (Resolved tt) costco_find.

Definition amazon_url : string := "https://www.amazon.ca/dp/B000000000".

Definition amazon_find (sel : string) : option Element :=
  if String.eqb sel "#corePrice_feature_div .a-offscreen"
  then Some (text_element " $1,234.56 ")
  else if String.eqb sel "#productTitle"
  then Some (text_element " Espresso machine ")
  else None.

Definition amazon (now : Z) : Env :=
  world now "www.amazon.ca" no_fetch (Resolved tt) amazon_find.

(** The navigation times out. *)
Definition amazon_timeout : Env :=
  world 0 "www.amazon.ca" no_fetch
    (Rejected "page.goto: Timeout 30000ms exceeded.") amazon_find.

(** A product page whose price element holds [text] and nothing else. *)
Definition priced (text : string) : Env :=
  world 0 "www.amazon.ca" no_fetch (Resolved tt)
    (fun sel => if String.eqb sel "#corePrice_feature_div .a-offscreen"
                then Some (text_element text)
                else None).

Definition request (u fs : string) : Request :=
  {| url := Some u; fields := Some fs |}.

End Scenario.

(** ** The CSV endpoint, GET /values *)

Module Csv.

Import Js.

Definition dquote : ascii := "034"%char.

(** Line 164, the [replace] with the global flag: every double quote
    becomes two. *)
Fixpoint escape (s : string) : string :=
  match s with
  | EmptyString => EmptyString
  | String c r =>
      if Ascii.eqb c dquote then String dquote (String dquote (escape r))
      else String c (escape r)
  end.

(** The template literal of line 164: the escaped text between two double
    quotes. *)
Definition cell (s : string) : string :=
  String dquote (escape s ++ String dquote EmptyString).

(** An element of [j.values] on the other side of the HTTP call: what
    [JSON.stringify] and [JSON.parse] make of a slot of [values]. *)
Inductive parsed : Type :=
  | PStr (s : string)
  | PNum (n : number)
  | PNull
  | PObject.

(** A function, NaN and the infinities are written as [null]; the member
    [__proto__] is the prototype object, written as an empty object. *)
Definition through_json (v : jsval) : parsed :=
  match v with
  | VStr s => PStr s
  | VNum (Decimal neg d e) => PNum (Decimal neg d e)
  | VNum _ => PNull
  | VBuiltin k => if String.eqb k "__proto__" then PObject else PNull
  end.

(** The array [j?.values || []]: an error answer has no [values]. *)
Definition values_of_body (b : body) : list parsed :=
  match b with
  | JPayload p => List.map through_json (values p)
  | JError _ => []
  end.

Record CsvResponse : Type := {
  content_type : string;
  sent : string
}.

Section Rendering.

(** [Number.prototype.toString]: the shortest decimal that reads back as
    the same double.  It is left open here. *)
Variable show_number : number -> string.

(** [String(v ?? "")]. *)
Definition render (v : parsed) : string :=
  match v with
  | PStr s => s
  | PNum n => show_number n
  | PNull => EmptyString
  | PObject => "[object Object]"
  end.

(** Line 164. *)
Definition csv_line (arr : list parsed) : string :=
  join_comma (List.map (fun v => cell (render v)) arr).

(** The handler of GET /values.  [loopback] is how the [fetch] of the
    server's own /api/scrape settles; when it resolves, that request is
    served by [scrape] with the two parameters as they were given (the
    percent-encoding of line 160 and the decoding of the query parser
    cancel), an absent one being the empty string. *)
Definition values_route (env : Env) (loopback : outcome unit) (req : Request)
    (s : Store) : CsvResponse * Store * list event :=
  match loopback with
  | Rejected _ =>
      ({| content_type := "text/csv"; sent := EmptyString |}, s, [])
  | Resolved _ =>
      let inner := {| url := Some (Normalizer.or_empty (url req));
                      fields := Some (Normalizer.or_empty (fields req)) |} in
      let '(resp, s', lg) := scrape env inner s in
      ({| content_type := "text/csv";
          sent := csv_line (values_of_body (json resp)) |}, s', lg)
  end.

End Rendering.

(** A reader of one line of quoted fields, the way a spreadsheet reads it
    (RFC 4180): fields are separated by commas, each one is between double
    quotes, and inside a field two double quotes stand for one.  It is the
    inverse that the round trip of [csv_line] is stated against. *)
Inductive reader_state : Type :=
  | LineStart       (* nothing read yet *)
  | FieldStart      (* after a comma *)
  | InField         (* inside the quotes *)
  | QuoteSeen.      (* after a double quote inside a field *)

(** [cur] is the current field, last character first; [done] the fields
    read so far, last one first. *)
Fixpoint read_fields (st : reader_state) (cur : string) (done : list string)
    (s : string) : option (list string) :=
  match s with
  | EmptyString =>
      match st with
      | LineStart => Some []
      | QuoteSeen => Some (List.rev (reverse cur :: done))
      | FieldStart | InField => None
      end
  | String c r =>
      match st with
      | LineStart | FieldStart =>
          if Ascii.eqb c dquote then read_fields InField EmptyString done r
          else None
      | InField =>
          if Ascii.eqb c dquote then read_fields QuoteSeen cur done r
          else read_fields InField (String c cur) done r
      | QuoteSeen =>
          if Ascii.eqb c dquote then read_fields InField (String c cur) done r
          else if Ascii.eqb c ","%char
          then read_fields FieldStart EmptyString (reverse cur :: done) r
          else None
      end
  end.

Definition read_line (s : string) : option (list string) :=
  read_fields LineStart EmptyString [] s.

End Csv.

(** ** More vocabulary *)

Definition is_close (e : event) : bool :=
  match e with EClose _ => true | _ => false end.

(** How many contexts were closed, whichever they are. *)
Definition close_events (l : list event) : nat :=
  List.length (List.filter is_close l).

(** Lines 131-132: what the loop assigns to [value] for the element that
    [sel] matched, and the call it makes for it. *)
Definition read_value (sel : string) (el : Element) : outcome (option string) :=
  if startsWith "meta[" sel then getAttribute_content el
  else match textContent el with
       | Resolved t => Resolved (Some (match t with
                                       | Some s => trim s
                                       | None => EmptyString
                                       end))
       | Rejected e => Rejected e
       end.

Definition read_event (sel : string) : event :=
  if startsWith "meta[" sel then EGetAttribute else ETextContent.

(** The text starts like a decimal literal: a digit, or a period and a
    digit. *)
Definition numeric_head (s : string) : bool :=
  match s with
  | String c r =>
      is_digit c
      || (Ascii.eqb c "."%char
          && match r with String d _ => is_digit d | EmptyString => false end)
  | EmptyString => false
  end.

(** A meta tag the way the static fetch extractor expects it, with single
    quotes around both attribute values. *)
Definition meta_tag (name v : string) : string :=
  ("property='" ++ name ++ "' content='" ++ v ++ "'")%string.

(** [c] is none of the characters that end or restart the attribute: a
    quote, an equals sign, a closing angle bracket. *)
Definition plain_char (c : ascii) : bool :=
  negb (Meta.is_quote c || Ascii.eqb c "="%char || Ascii.eqb c ">"%char).

Fixpoint plain (s : string) : bool :=
  match s with
  | EmptyString => true
  | String c r => plain_char c && plain r
  end.

Fixpoint no_quote (s : string) : bool :=
  match s with
  | EmptyString => true
  | String c r => negb (Meta.is_quote c) && no_quote r
  end.

Fixpoint comma_free (s : string) : bool :=
  match s with
  | EmptyString => true
  | String c r => negb (Ascii.eqb c ","%char) && comma_free r
  end.

(** A field name as line 57 leaves it: not empty, without a comma, with no
    white space at either end. *)
Definition field_name (k : string) : Prop :=
  k <> EmptyString /\ comma_free k = true /\ trim k = k.

(** No white space sequence at the head of [s], as [trimStart] tests it. *)
Definition head_clear (s : string) : bool :=
  match s with
  | String a r1 =>
      negb (ws1 a)
      && match r1 with
         | String b r2 =>
             negb (ws2 a b)
             && match r2 with
                | String c _ => negb (ws3 a b c)
                | EmptyString => true
                end
         | EmptyString => true
         end
  | EmptyString => true
  end.

(** The same for [trimStart_mirror]. *)
Definition tail_clear (s : string) : bool :=
  match s with
  | String a r1 =>
      negb (ws1 a)
      && match r1 with
         | String b r2 =>
             negb (ws2 b a)
             && match r2 with
                | String c _ => negb (ws3 c b a)
                | EmptyString => true
                end
         | EmptyString => true
         end
  | EmptyString => true
  end.

(** A text of digits, periods and commas: what the first [replace] of the
    normalizer leaves. *)
Fixpoint all_kept (s : string) : bool :=
  match s with
  | EmptyString => true
  | String c r => kept c && all_kept r
  end.

(** Run [r] after [n] more calls of [page.$] that left [evs] in the log. *)
Definition advance (r : Run) (evs : list event) (n : nat) : Run :=
  {| store := store r; log := log r ++ evs; queries := queries r + n |}.

(** The candidate chain of a field that is not an inherited member. *)
Definition chain_of (key : string) : list string :=
  match obj_get selectors key with
  | Own cands => cands
  | _ => []
  end.

(** The log [evs] closes nothing, or ends with the one [close] of context
    [c], which it opened before. *)
Definition closes_own (c : nat) (evs : list event) : Prop :=
  close_events evs = 0
  \/ exists before, evs = before ++ [EClose c]
       /\ close_events before = 0
       /\ In (ENewContext c) before.

(** The request that /values passes on to /api/scrape. *)
Definition inner_request (req : Request) : Request :=
  {| url := Some (or_empty (url req)); fields := Some (or_empty (fields req)) |}.

(** No equals sign before the first closing angle bracket: nothing in [s]
    can start another attribute of the same tag. *)
Fixpoint quiet (s : string) : bool :=
  match s with
  | EmptyString => true
  | String c r =>
      if Ascii.eqb c ">"%char then true
      else negb (Ascii.eqb c "="%char) && quiet r
  end.

(** [n] times the character [c]. *)
Fixpoint repeat_char (n : nat) (c : ascii) : string :=
  match n with
  | O => EmptyString
  | S n' => String c (repeat_char n' c)
  end.

(** What the normalizer can put in a slot: a string, or a number that is
    neither NaN nor negative, that is an unsigned decimal with no positive
    exponent in the range of the doubles, or plus infinity. *)
Definition storable (v : jsval) : bool :=
  match v with
  | VStr _ => true
  | VNum (Decimal false d e) => (e <=? 0)%Z && negb (Parse.overflows d e)
  | VNum (Infinity false) => true
  | VNum _ => false
  | VBuiltin _ => false
  end.

(** The selectors configured for the fields of [wanted], in the order in
    which the extract loop goes through them. *)
Definition candidates_of (wanted : list string) : list string :=
  flat_map (fun key => match obj_get selectors key with
                       | Own cands => cands
                       | FromPrototype | Undefined => []
                       end) wanted.

(** The selectors that the calls of [page.$] in a log asked for, in
    order. *)
Definition queried (lg : list event) : list string :=
  omap (fun e => match e with EQuery sel => Some sel | _ => None end) lg.

(** What the computation [m] asks of the page is, in order, part of
    [sels]. *)
Definition asks {A : Type} (sels : list string) (m : M A) : Prop :=
  forall r o r', m r = (o, r') ->
    exists evs, log r' = log r ++ evs /\ sublist (queried evs) sels.

(** * Properties *)

(** ** The value normalizer *)

Module NormalizerFacts.

Import Js Parse Normalizer.

Lemma strip_filter (s : string) :
  list_ascii_of_string (strip s) = List.filter kept (list_ascii_of_string s).
Proof.
  induction s as [|c r IH]; simpl; [reflexivity|].
  destruct (kept c); simpl; now rewrite IH.
Qed.

Lemma strip_only_kept (s : string) :
  Forall (fun c => kept c = true) (list_ascii_of_string (strip s)).
Proof.
  rewrite strip_filter. apply List.Forall_forall. intros c Hc.
  apply filter_In in Hc. tauto.
Qed.

Lemma comma_to_period_replaces_first (s : string) :
  first_comma_replaced s (comma_to_period s).
Proof.
  induction s as [|c r IH]; simpl.
  - apply fcr_none. intros [].
  - destruct (Ascii.eqb c ",") eqn:Hc.
    + apply Ascii.eqb_eq in Hc. subst c.
      apply (fcr_some EmptyString r). intros [].
    + apply Ascii.eqb_neq in Hc.
      destruct IH as [s' Hno | a b Hno].
      * apply fcr_none.
        intros [H|H]; [congruence | exact (Hno H)].
      * apply (fcr_some (String c a) b).
        intros [H|H]; [congruence | exact (Hno H)].
Qed.

Lemma truthy_nonempty (raw : string) :
  raw <> EmptyString -> truthy (Some raw) = true.
Proof. destruct raw; [congruence | reflexivity]. Qed.

(** C1 as stated does not hold: the first comma of "$1,234.56" becomes a
    period, [parseFloat] then stops at the second period, and the field is
    the number 1.234, not 1234.56. *)
Lemma thousands_separator_counterexample :
  ~ (exists n q,
        normalize "price" (Some "$1,234.56") = VNum n
        /\ number_value n = Some q
        /\ (q == 123456 # 100)%Q).
Proof.
  intros (n & q & Hn & Hq & Heq).
  vm_compute in Hn. injection Hn as <-.
  vm_compute in Hq. injection Hq as <-.
  vm_compute in Heq. discriminate Heq.
Qed.

(** C1, amended: for a field whose name contains "price" and a non-empty
    raw value, the normalizer keeps exactly the digits, commas and periods
    of the raw value, turns the first comma into a period and reads the
    result with [parseFloat]; the field is that number, or the unchanged raw
    string when [parseFloat] gives NaN.  In particular "$1,234.56" becomes
    1.234 (the literal read stops at the second period), "CDN$ 19.99"
    becomes 19.99 and "Free" stays the string "Free". *)
Theorem price_normalization (key raw : string) :
  includes "price" key = true ->
  raw <> EmptyString ->
  (exists num,
      list_ascii_of_string (strip raw)
        = List.filter kept (list_ascii_of_string raw)
      /\ first_comma_replaced (strip raw) num
      /\ normalize key (Some raw)
         = if isNaN (parseFloat num) then VStr raw else VNum (parseFloat num))
  /\ normalize "price" (Some "$1,234.56") = VNum (Decimal false 1234 (-3))
  /\ number_value (Decimal false 1234 (-3)) = Some (1234 # 1000)%Q
  /\ normalize "price" (Some "CDN$ 19.99") = VNum (Decimal false 1999 (-2))
  /\ number_value (Decimal false 1999 (-2)) = Some (1999 # 100)%Q
  /\ normalize "price" (Some "Free") = VStr "Free".
Proof.
  intros Hkey Hraw. split; [|repeat split; vm_compute; reflexivity].
  exists (comma_to_period (strip raw)). split; [apply strip_filter|].
  split; [apply comma_to_period_replaces_first|].
  unfold normalize. rewrite Hkey, (truthy_nonempty raw Hraw). reflexivity.
Qed.

Lemma price_normalization_witness :
  exists num,
    first_comma_replaced (strip "$1,234.56") num
    /\ normalize "c_price" (Some "$1,234.56")
       = if isNaN (parseFloat num) then VStr "$1,234.56"
         else VNum (parseFloat num).
Proof.
  destruct (price_normalization "c_price" "$1,234.56") as [(num & _ & H1 & H2) _].
  - reflexivity.
  - discriminate.
  - exists num. split; assumption.
Defined.

End NormalizerFacts.

(** ** Runs of the handler's pieces *)

Module RunFacts.

Import Js Normalizer.

Local Arguments startsWith : simpl never.
Local Arguments trim : simpl never.
Local Arguments truthy : simpl never.
Local Arguments nonempty : simpl never.
Local Arguments normalize : simpl never.
Local Arguments obj_get : simpl never.
Local Arguments obj_set : simpl never.

Lemma extends_refl P r : extends P r r.
Proof. split; [reflexivity|]. exists []. now rewrite app_nil_r. Qed.

Lemma extends_trans P a b c : extends P a b -> extends P b c -> extends P a c.
Proof.
  intros [Hs1 (e1 & Hl1 & Hp1)] [Hs2 (e2 & Hl2 & Hp2)]. split; [congruence|].
  exists (e1 ++ e2). rewrite Hl2, Hl1, <- app_assoc. split; [reflexivity|].
  rewrite forallb_app, Hp1, Hp2. reflexivity.
Qed.

Lemma try_candidates_run env cands : forall value r o r',
  try_candidates env cands value r = (o, r') -> extends is_page_read r r'.
Proof.
  induction cands as [|sel rest IH]; intros value r o r' H.
  - inversion H. apply extends_refl.
  - simpl in H. unfold bind, next_query, emit, await in H. simpl in H.
    set (r1 := {| store := store r; log := log r ++ [EQuery sel]; queries := S (queries r) |}) in *.
    assert (H1 : extends is_page_read r r1).
    { split; [reflexivity|]. exists [EQuery sel]. split; reflexivity. }
    destruct (query env (queries r) sel) as [[el|]|e].
    + destruct (startsWith "meta[" sel).
      * unfold ret in H. simpl in H.
        set (r2 := {| store := store r1; log := log r1 ++ [EGetAttribute]; queries := queries r1 |}) in *.
        assert (H2 : extends is_page_read r r2).
        { apply (extends_trans _ _ r1); [exact H1|]. split; [reflexivity|]. exists [EGetAttribute]. split; reflexivity. }
        destruct (getAttribute_content el) as [v|e].
        -- destruct (truthy v).
           ++ inversion H; subst. exact H2.
           ++ apply IH in H. eapply extends_trans; eauto.
        -- inversion H; subst. exact H2.
      * unfold ret in H. simpl in H.
        set (r2 := {| store := store r1; log := log r1 ++ [ETextContent]; queries := queries r1 |}) in *.
        assert (H2 : extends is_page_read r r2).
        { apply (extends_trans _ _ r1); [exact H1|]. split; [reflexivity|]. exists [ETextContent]. split; reflexivity. }
        destruct (textContent el) as [v|e].
        -- match type of H with (if ?c then _ else _) _ = _ => destruct c end.
           ++ inversion H; subst. exact H2.
           ++ apply IH in H. eapply extends_trans; eauto.
        -- inversion H; subst. exact H2.
    + apply IH in H. eapply extends_trans; eauto.
    + inversion H; subst. exact H1.
Qed.

Lemma obj_set_proper out key v :
  obj_get selectors key <> FromPrototype -> obj_set out key v = <[key:=v]> out.
Proof.
  intros H. unfold obj_set. destruct (String.eqb key "__proto__") eqn:E; [|reflexivity].
  apply String.eqb_eq in E. subst key. exfalso. apply H. reflexivity.
Qed.

Lemma extract_fields_run env keys : forall out r o r',
  extract_fields env keys out r = (o, r') ->
  extends is_page_read r r'
  /\ match o with
     | Resolved out' =>
         forall k, In k keys \/ is_Some (out !! k) -> is_Some (out' !! k)
     | Rejected _ => True
     end.
Proof.
  induction keys as [|key rest IH]; intros out r o r' H.
  - inversion H; subst. split; [apply extends_refl|]. intros k [[]|Hk]. exact Hk.
  - cbn [extract_fields] in H.
    assert (Hstep : forall cands,
      obj_get selectors key <> FromPrototype ->
      bind (try_candidates env cands (Some EmptyString))
        (fun value => extract_fields env rest (obj_set out key (normalize key value))) r
      = (o, r') ->
      extends is_page_read r r'
      /\ match o with
         | Resolved out' =>
             forall k, In k (key :: rest) \/ is_Some (out !! k) -> is_Some (out' !! k)
         | Rejected _ => True
         end).
    { intros cands Hne Hb. unfold bind in Hb.
      destruct (try_candidates env cands (Some EmptyString) r) as [[v|e] r1] eqn:Ht;
        apply try_candidates_run in Ht.
      - apply IH in Hb. destruct Hb as [Hext Hout]. split.
        + eapply extends_trans; eauto.
        + destruct o as [out'|]; [|exact I]. intros k Hk. apply Hout.
          rewrite obj_set_proper by exact Hne.
          destruct (decide (key = k)) as [->|Hkk].
          * right. rewrite lookup_insert_eq. eauto.
          * destruct Hk as [[Hk|Hk]|Hk]; [congruence|now left|].
            right. now rewrite lookup_insert_ne.
      - inversion Hb; subst. split; [exact Ht | exact I]. }
    destruct (obj_get selectors key) as [cands| |] eqn:Hg.
    + apply (Hstep cands); [discriminate | exact H].
    + inversion H; subst. split; [apply extends_refl | exact I].
    + apply (Hstep []); [discriminate | exact H].
Qed.

Lemma forallb_impl {A} (P Q : A -> bool) l :
  (forall x, P x = true -> Q x = true) -> forallb P l = true -> forallb Q l = true.
Proof.
  intros HPQ. induction l as [|x l IH]; cbn; [reflexivity|].
  intros H. apply andb_prop in H. destruct H as [H1 H2].
  rewrite (HPQ _ H1), (IH H2). reflexivity.
Qed.

Lemma page_read_browser_event e : is_page_read e = true -> is_browser_event e = true.
Proof. destruct e; cbn; congruence. Qed.

Lemma closes_app c l1 l2 : closes c (l1 ++ l2) = closes c l1 + closes c l2.
Proof. unfold closes. now rewrite List.filter_app, List.length_app. Qed.

Lemma closes_page_reads c l : forallb is_page_read l = true -> closes c l = 0.
Proof.
  induction l as [|e l IH]; intros H; [reflexivity|].
  cbn in H. apply andb_prop in H. destruct H as [H1 H2].
  change (e :: l) with ([e] ++ l). rewrite closes_app, (IH H2).
  destruct e; cbn in *; congruence.
Qed.

Ltac failed_run H :=
  inversion H; subst; clear H; cbn;
  split; [reflexivity
         | eexists; split; [rewrite <- ?app_assoc; cbn; reflexivity | reflexivity]].

Ltac await_step H x := destruct x; cbn in H; [|failed_run H].

Ltac session H env u :=
  await_step H (newContext env); await_step H (newPage env);
  await_step H (route env); await_step H (setExtraHTTPHeaders env);
  await_step H (goto env u); await_step H (waitForTimeout env).

Lemma closes_self c : closes c [EClose c] = 1.
Proof. unfold closes. cbn. now rewrite Nat.eqb_refl. Qed.

Lemma forallb_browser_page_reads l :
  forallb is_page_read l = true -> forallb is_browser_event l = true.
Proof. apply forallb_impl, page_read_browser_event. Qed.

Lemma session_events (launch_evs : list event) c u qevs :
  forallb is_browser_event launch_evs = true ->
  closes c launch_evs = 0 ->
  forallb is_page_read qevs = true ->
  let evs := launch_evs ++ session_prefix c u ++ qevs ++ [EClose c] in
  forallb is_browser_event evs = true
  /\ In (EGoto u) evs
  /\ In (ENewContext c) evs
  /\ closes c evs = 1.
Proof.
  intros Hl Hc Hq evs. subst evs. repeat split.
  - rewrite !forallb_app, Hl, (forallb_browser_page_reads _ Hq). reflexivity.
  - apply in_or_app. right. cbn. tauto.
  - apply in_or_app. right. cbn. tauto.
  - rewrite !closes_app, Hc, (closes_page_reads _ _ Hq), closes_self. reflexivity.
Qed.

(** The three ends of a session that got its browser: closed and answered,
    [close] rejected, extraction rejected.  [extract_fields_run] says what
    the extract loop did in between. *)
Ltac session_ends H launch_evs c u :=
  let out := fresh "out" in
  let r2 := fresh "r2" in
  let Hex := fresh "Hex" in
  let Hst := fresh "Hst" in
  let qevs := fresh "qevs" in
  let Hlog := fresh "Hlog" in
  let Hq := fresh "Hq" in
  let Hout := fresh "Hout" in
  match type of H with
  | (let (_, _) := ?x in _) = _ => destruct x as [[out|?] r2] eqn:Hex
  end;
  apply extract_fields_run in Hex;
  destruct Hex as [[Hst (qevs & Hlog & Hq)] Hout];
  cbn in Hst, Hlog;
  [destruct (close _)|];
  inversion H; subst; clear H; cbn; rewrite Hst, Hlog;
  [ exists out, (launch_evs ++ session_prefix c u ++ qevs ++ [EClose c]);
    split; [reflexivity|];
    split; [intros ? ?; apply Hout; now left|];
    split; [reflexivity|];
    split; [cbn; rewrite <- !app_assoc; reflexivity|];
    now apply session_events
  | split; [reflexivity|];
    exists (launch_evs ++ session_prefix c u ++ qevs ++ [EClose c]);
    split; [cbn; rewrite <- !app_assoc; reflexivity|];
    now apply session_events
  | split; [reflexivity|];
    exists (launch_evs ++ session_prefix c u ++ qevs);
    split; [cbn; rewrite <- !app_assoc; reflexivity|];
    rewrite !forallb_app, (forallb_browser_page_reads _ Hq); reflexivity ].

(** Every way [browser_path] can end.  Answered: the payload holds every
    wanted field, it is stored under the key, the navigation happened and
    the context was closed exactly once.  Rejected: the cache is as it
    was. *)
Lemma browser_path_run env u key wanted r o r' :
  browser_path env u key wanted r = (o, r') ->
  match o with
  | Resolved resp =>
      exists out evs,
        resp = {| status := 200; http_headers := [cache_control];
                  json := JPayload (result_of wanted out) |}
        /\ (forall k, In k wanted -> is_Some (out !! k))
        /\ cache (store r')
           = <[key := {| entry_t := now_store env;
                         entry_data := result_of wanted out |}]>
               (cache (store r))
        /\ log r' = log r ++ evs
        /\ forallb is_browser_event evs = true
        /\ In (EGoto u) evs
        /\ In (ENewContext (contexts (store r))) evs
        /\ closes (contexts (store r)) evs = 1
  | Rejected _ =>
      cache (store r') = cache (store r)
      /\ exists evs,
           log r' = log r ++ evs /\ forallb is_browser_event evs = true
  end.
Proof.
  unfold browser_path, bind, getBrowser, getBrowser_step, await_browser,
    open_context, cache_set, emit, await, get_store, put_store, ret, throw.
  intros H. cbn in H.
  destruct (browserPromise (store r)) as [p|]; cbn in H;
    [destruct (settles p) | destruct (launch env)]; cbn in H;
    try (failed_run H); session H env u.
  - session_ends H (@nil event) (contexts (store r)) u.
  - session_ends H [ELaunch (launches (store r))] (contexts (store r)) u.
Qed.

Lemma static_fetch_ok_meta env u :
  static_fetch_ok env u = true <-> is_Some (fetched_meta env u).
Proof.
  unfold static_fetch_ok, fetched_meta.
  destruct (fetch env u) as [resp|e]; [|split; [discriminate | intros [? ?]; discriminate]].
  destruct (ok resp); cbn; [|split; [discriminate | intros [? ?]; discriminate]].
  destruct (text resp); split; eauto; try discriminate. intros [? ?]; discriminate.
Qed.


Lemma browser_path_settles env u key wanted s pre resp s' lg :
  settle (browser_path env u key wanted {| store := s; log := pre; queries := 0 |})
    = (resp, s', lg) ->
  (exists evs, lg = pre ++ evs /\ forallb is_browser_event evs = true)
  /\ ((exists message, resp = {| status := 500; http_headers := []; json := JError message |}
                       /\ cache s' = cache s)
      \/ (exists out evs,
            lg = pre ++ evs
            /\ resp = {| status := 200; http_headers := [cache_control];
                         json := JPayload (result_of wanted out) |}
            /\ (forall k, In k wanted -> is_Some (out !! k))
            /\ cache s' = <[key := {| entry_t := now_store env;
                                      entry_data := result_of wanted out |}]> (cache s)
            /\ In (EGoto u) evs
            /\ In (ENewContext (contexts s)) evs
            /\ closes (contexts s) evs = 1)).
Proof.
  intros H. unfold settle in H.
  destruct (browser_path env u key wanted _) as [o r'] eqn:Hb.
  apply browser_path_run in Hb. cbn in Hb. inversion H; subst; clear H.
  destruct o as [resp|message].
  - destruct Hb as (out & evs & -> & Hout & Hc & Hl & Hev & Hg & Hn & Hcl).
    split; [eauto|]. right. exists out, evs. repeat split; auto.
  - destruct Hb as [Hc (evs & Hl & Hev)]. split; [eauto|]. left. eauto.
Qed.

Lemma on_miss_settles env u key wanted s resp s' lg :
  settle (on_miss env u key wanted (start s)) = (resp, s', lg) ->
  (exists evs, lg = fetch_events env u wanted ++ evs
               /\ forallb is_browser_event evs = true)
  /\ miss_result env u key wanted s resp s' lg.
Proof.
  unfold on_miss, fetch_events. destruct (url_hostname env u) as [h|] eqn:Hh.
  - destruct (fast_path_guard h wanted) eqn:Hg.
    + unfold bind, fetchCostcoMeta, emit, ret. cbn.
      destruct (fetched_meta env u) as [m|] eqn:Hm.
      * unfold static_answer, settle, bind, cache_set, get_store, put_store, ret.
        intros H. cbn [store log queries app] in H. inversion H; subst; clear H.
        split; [exists []; split; reflexivity|].
        apply (miss_static env u key wanted s h m); assumption.
      * intros H. apply browser_path_settles in H.
        destruct H as [Hlog [(message & -> & Hc) | (out & evs & -> & -> & Hout & Hc & Hgo & Hn & Hcl)]].
        -- split; [exact Hlog|]. now apply miss_failed.
        -- split; [exact Hlog|].
           pose proof (miss_browser env u key wanted s out s' evs Hout Hc Hgo Hn Hcl) as R.
           unfold fetch_events in R. rewrite Hh, Hg in R. exact R.
    + intros H. apply browser_path_settles in H.
      destruct H as [Hlog [(message & -> & Hc) | (out & evs & -> & -> & Hout & Hc & Hgo & Hn & Hcl)]].
      -- split; [exact Hlog|]. now apply miss_failed.
      -- split; [exact Hlog|].
         pose proof (miss_browser env u key wanted s out s' evs Hout Hc Hgo Hn Hcl) as R.
         unfold fetch_events in R. rewrite Hh, Hg in R. exact R.
  - unfold settle, throw, start. intros H. inversion H; subst; clear H.
    split; [exists []; split; reflexivity|]. now apply miss_failed.
Qed.

(** *** Where the payload of an answer comes from *)

Lemma bind_resolved {A B} (m : M A) (k : A -> M B) r b r' :
  bind m k r = (Resolved b, r') ->
  exists a r1, m r = (Resolved a, r1) /\ k a r1 = (Resolved b, r').
Proof.
  unfold bind. destruct (m r) as [[a|e] r1]; [eauto | discriminate].
Qed.

Lemma emit_queries e r o r' : emit e r = (o, r') -> queries r' = queries r.
Proof. now intros [= _ <-]. Qed.

Lemma await_queries {A} (x : outcome A) r o r' :
  await x r = (o, r') -> queries r' = queries r.
Proof. now intros [= _ <-]. Qed.

Lemma getBrowser_queries env r o r' :
  getBrowser env r = (o, r') -> queries r' = queries r.
Proof.
  unfold getBrowser. destruct (getBrowser_step _ _) as [[p s] evs].
  now intros [= _ <-].
Qed.

Lemma await_browser_queries p r o r' :
  await_browser p r = (o, r') -> queries r' = queries r.
Proof. unfold await_browser. destruct (settles p); now intros [= _ <-]. Qed.

Lemma open_context_queries env r o r' :
  open_context env r = (o, r') -> queries r' = queries r.
Proof.
  unfold open_context, bind, await, get_store, put_store, emit, ret.
  destruct (newContext env); now intros [= _ <-].
Qed.

Ltac quiet_step H :=
  let a := fresh "a" in
  let r := fresh "r" in
  let Hq := fresh "Hq" in
  apply bind_resolved in H; destruct H as (a & r & Hq & H);
  first [ apply getBrowser_queries in Hq
        | apply await_browser_queries in Hq
        | apply open_context_queries in Hq
        | apply emit_queries in Hq
        | apply await_queries in Hq ].

(** What the browser path answers is built from what the extract loop
    returned, and the loop starts with the query count of the request. *)
Lemma browser_path_payload env u key wanted r resp r' :
  browser_path env u key wanted r = (Resolved resp, r') ->
  exists out r1 r2,
    queries r1 = queries r
    /\ extract_fields env wanted ∅ r1 = (Resolved out, r2)
    /\ resp = {| status := 200; http_headers := [cache_control];
                 json := JPayload (result_of wanted out) |}.
Proof.
  unfold browser_path. intros H.
  do 13 (quiet_step H).
  apply bind_resolved in H. destruct H as (out & rx & Hex & H).
  do 3 (apply bind_resolved in H; destruct H as (? & ? & _ & H)).
  injection H as <- _. eexists out, _, rx.
  split; [|split; [exact Hex | reflexivity]]. congruence.
Qed.


End RunFacts.

(** ** The handler *)

Import RunFacts.

Module HandlerFacts.

Lemma scrape_refused env req s :
  ~ valid req -> scrape env req s = (refused, s, []).
Proof.
  intros H. unfold scrape, scrape_body.
  destruct (truthy (url req)) eqn:Hu; [|reflexivity].
  destruct (wanted_of (fields req)) as [|k w] eqn:Hw; [reflexivity|].
  exfalso. apply H. split; [exact Hu | congruence].
Qed.

Lemma scrape_valid env req s :
  valid req ->
  scrape env req s
  = match fresh_hit env s (key_of req) with
    | Some hit => (served hit, s, [])
    | None => settle (on_miss env (or_empty (url req)) (key_of req)
                        (wanted_of (fields req)) (start s))
    end.
Proof.
  intros [Hu Hw]. unfold scrape, scrape_body, fresh_hit, key_of.
  rewrite Hu. destruct (wanted_of (fields req)) as [|k w] eqn:Hwe; [congruence|].
  cbn [negb orb length Nat.ltb Nat.leb]. unfold bind, get_store. cbn [store start].
  destruct (cache s !! _) as [hit|]; [|reflexivity].
  destruct (now_check env - entry_t hit <? TTL)%Z; reflexivity.
Qed.

Lemma fresh_hit_Some env s key hit :
  fresh_hit env s key = Some hit <->
  cache s !! key = Some hit /\ (now_check env - entry_t hit < TTL)%Z.
Proof.
  unfold fresh_hit. destruct (cache s !! key) as [e|]; [|split; [discriminate | intros [? _]; discriminate]].
  destruct (Z.ltb_spec (now_check env - entry_t e) TTL).
  - split; [intros [= ->]; auto | intros [[= ->] _]; reflexivity].
  - split; [discriminate | intros [[= ->] ?]; lia].
Qed.


Lemma valid_dec req : {valid req} + {~ valid req}.
Proof.
  unfold valid. destruct (truthy (url req)); [|right; intros [? _]; discriminate].
  destruct (wanted_of (fields req)); [right; intros [_ ?]; congruence | left; split; [reflexivity|discriminate]].
Qed.

(** Whatever is answered with status 200 sits in the cache under the key of
    the request when the handler returns. *)
Lemma answered_is_cached env req s resp s' lg :
  scrape env req s = (resp, s', lg) ->
  status resp = 200 ->
  valid req
  /\ exists e, cache s' !! key_of req = Some e /\ json resp = JPayload (entry_data e).
Proof.
  intros H H200. destruct (valid_dec req) as [Hv|Hv].
  2:{ rewrite (scrape_refused _ _ _ Hv) in H. inversion H; subst. discriminate. }
  split; [exact Hv|]. rewrite (scrape_valid _ _ _ Hv) in H.
  destruct (fresh_hit env s (key_of req)) as [hit|] eqn:Hf.
  - inversion H; subst. apply fresh_hit_Some in Hf. exists hit. tauto.
  - apply on_miss_settles in H. destruct H as [_ H].
    destruct H as [message s' lg Hc | h m Hh Hg Hm | out s' evs Hout Hc Hgo Hn Hcl].
    + discriminate.
    + eexists. split; [apply lookup_insert_eq | reflexivity].
    + eexists. split; [rewrite Hc; apply lookup_insert_eq | reflexivity].
Qed.

End HandlerFacts.

Module CacheFacts.

Import HandlerFacts Scenario.

(** C3 as stated does not hold: the key joins the fields in request
    order, so two requests for the same url whose field lists are
    permutations of each other have different keys, and the second one
    navigates again although the first answer is still fresh. *)
Lemma permuted_fields_counterexample :
  let first := request amazon_url "price,title" in
  let second := request amazon_url "title,price" in
  Permutation (wanted_of (fields first)) (wanted_of (fields second))
  /\ key_of first <> key_of second
  /\ (let '(_, s1, _) := scrape (amazon 0) first initial_store in
      let '(_, _, lg2) := scrape (amazon 1000) second s1 in
      In (EGoto amazon_url) lg2).
Proof.
  split; [|split].
  - vm_compute. apply perm_swap.
  - vm_compute. discriminate.
  - vm_compute. tauto.
Qed.

(** C3, amended: the cache key is the url, [::] and the requested fields
    joined by commas in request order (trimmed, empty segments dropped, not
    sorted).  Two requests with the same url and the same field list have
    the same key, and when the first was answered 200 and its entry is
    younger than the TTL when the second arrives, the second is answered
    with the same payload, without a fetch or a browser call and without a
    change of the store. *)
Theorem same_fields_cache_hit env1 env2 req1 req2 s0 resp1 s1 lg1 :
  url req1 = url req2 ->
  wanted_of (fields req1) = wanted_of (fields req2) ->
  scrape env1 req1 s0 = (resp1, s1, lg1) ->
  status resp1 = 200 ->
  (forall e, cache s1 !! key_of req1 = Some e ->
             (now_check env2 - entry_t e < TTL)%Z) ->
  key_of req2 = key_of req1
  /\ key_of req1
     = (or_empty (url req1) ++ "::"
        ++ String.concat "," (wanted_of (fields req1)))%string
  /\ exists resp2,
       scrape env2 req2 s1 = (resp2, s1, [])
       /\ status resp2 = 200
       /\ json resp2 = json resp1.
Proof.
  intros Hu Hw H1 H200 Hfresh.
  assert (Hk : key_of req2 = key_of req1) by (unfold key_of; now rewrite Hu, Hw).
  split; [exact Hk|]. split; [reflexivity|].
  destruct (answered_is_cached _ _ _ _ _ _ H1 H200) as [[Hv1 Hv2] (e & He & Hj)].
  assert (Hv : valid req2) by (unfold valid; now rewrite <- Hu, <- Hw).
  exists (served e). rewrite (scrape_valid _ _ _ Hv), Hk.
  assert (Hf : fresh_hit env2 s1 (key_of req1) = Some e).
  { apply fresh_hit_Some. split; [exact He | exact (Hfresh e He)]. }
  rewrite Hf. split; [reflexivity|]. split; [reflexivity|]. now rewrite Hj.
Qed.

Lemma same_fields_cache_hit_witness :
  let first := request amazon_url "price, title" in
  let second := request amazon_url "price,title,," in
  let x := scrape (amazon 0) first initial_store in
  exists resp2,
    scrape (amazon 899999) second x.1.2 = (resp2, x.1.2, [])
    /\ status resp2 = 200
    /\ json resp2 = json x.1.1.
Proof.
  intros first second x.
  refine (proj2 (proj2 (same_fields_cache_hit (amazon 0) (amazon 899999)
            first second initial_store x.1.1 x.1.2 x.2 _ _ _ _ _))).
  - reflexivity.
  - vm_compute. reflexivity.
  - subst x. now destruct (scrape (amazon 0) first initial_store) as [[? ?] ?].
  - vm_compute. reflexivity.
  - intros e He.
    assert (Ht : entry_t <$> cache x.1.2 !! key_of first = Some 0%Z)
      by (vm_compute; reflexivity).
    rewrite He in Ht. injection Ht as ->. reflexivity.
Defined.



End CacheFacts.

Module RouterFacts.

Import HandlerFacts Scenario.

Lemma wants_In wanted k : wants wanted k = true <-> In k wanted.
Proof.
  unfold wants. rewrite existsb_exists. split.
  - intros (x & Hx & He). apply String.eqb_eq in He. now subst.
  - intros H. exists k. split; [exact H | apply String.eqb_refl].
Qed.

Lemma fast_path_guard_spec h wanted :
  fast_path_guard h wanted = true <->
  endsWith ".costco.ca" (toLowerCase h) = true
  /\ (In "c_price" wanted \/ In "c_title" wanted).
Proof.
  unfold fast_path_guard, isCostco.
  rewrite andb_true_iff, orb_true_iff, !wants_In. reflexivity.
Qed.

Lemma browser_events_no_fetch u evs :
  forallb is_browser_event evs = true -> ~ In (EFetch u) evs.
Proof.
  intros H Hin. rewrite forallb_forall in H. specialize (H _ Hin). discriminate.
Qed.

(** C4 as stated does not hold: one field that a meta tag can fill is
    enough for the fast path; [rating] is not such a field, yet the request
    is answered from the static fetch alone. *)
Lemma fast_path_partial_counterexample :
  let req := request costco_url "c_price,rating" in
  let x := scrape costco_static req initial_store in
  forallb meta_field (wanted_of (fields req)) = false
  /\ x.2 = [EFetch costco_url]
  /\ status x.1.1 = 200.
Proof. vm_compute. auto. Qed.

(** C4, amended: for a request that is neither refused nor served from the
    cache, the static fetch is made exactly when the host ends with
    [.costco.ca] and at least one requested field is [c_price] or
    [c_title]; when the fetch gives a usable result the fetch is the only
    thing done (no launch, no context, no navigation) and the answer is
    200; when it gives none the request goes on as the browser path. *)
Theorem fast_path_exactly env req s h resp s' lg :
  valid req ->
  fresh_hit env s (key_of req) = None ->
  url_hostname env (or_empty (url req)) = Some h ->
  scrape env req s = (resp, s', lg) ->
  let u := or_empty (url req) in
  let wanted := wanted_of (fields req) in
  (In (EFetch u) lg <-> fast_path_guard h wanted = true)
  /\ (fast_path_guard h wanted = true <->
      endsWith ".costco.ca" (toLowerCase h) = true
      /\ (In "c_price" wanted \/ In "c_title" wanted))
  /\ (fast_path_guard h wanted = true -> static_fetch_ok env u = true ->
      lg = [EFetch u] /\ status resp = 200
      /\ launches s' = launches s /\ contexts s' = contexts s
      /\ browserPromise s' = browserPromise s)
  /\ (fast_path_guard h wanted = true -> static_fetch_ok env u = false ->
      (resp, s', lg)
      = settle (browser_path env u (key_of req) wanted
                  {| store := s; log := [EFetch u]; queries := 0 |})).
Proof.
  intros Hv Hf Hh H u wanted. rewrite (scrape_valid _ _ _ Hv), Hf in H.
  fold u wanted in H. split; [|split; [apply fast_path_guard_spec|split]].
  - apply on_miss_settles in H. destruct H as [(evs & -> & Hev) _].
    unfold fetch_events. fold u in Hh. rewrite Hh.
    destruct (fast_path_guard h wanted).
    + split; [reflexivity | intros _; now left].
    + split; [|discriminate]. intros Hin. cbn in Hin.
      now apply browser_events_no_fetch in Hin.
  - intros Hg Hok. apply static_fetch_ok_meta in Hok. destruct Hok as [m Hm].
    unfold on_miss in H. fold u in Hh. rewrite Hh, Hg in H.
    unfold bind, fetchCostcoMeta, emit, ret in H. cbn [store log queries start] in H.
    rewrite Hm in H.
    unfold static_answer, settle, bind, cache_set, get_store, put_store, ret in H.
    cbn [store log queries app] in H. inversion H; subst; clear H.
    repeat split; reflexivity.
  - intros Hg Hok.
    assert (Hm : fetched_meta env u = None).
    { destruct (fetched_meta env u) eqn:E; [|reflexivity].
      assert (Hs : is_Some (fetched_meta env u)) by (rewrite E; eauto).
      apply static_fetch_ok_meta in Hs. congruence. }
    unfold on_miss in H. fold u in Hh. rewrite Hh, Hg in H.
    unfold bind at 1, fetchCostcoMeta, emit, ret in H.
    unfold bind at 1 in H. cbn [store log queries start app] in H.
    rewrite Hm in H. symmetry. exact H.
Qed.

Lemma fast_path_exactly_witness :
  let req := request costco_url "c_price,rating" in
  let x := scrape costco_static req initial_store in
  In (EFetch costco_url) x.2
  <-> fast_path_guard "www.costco.ca" (wanted_of (fields req)) = true.
Proof.
  intros req x.
  refine (proj1 (fast_path_exactly costco_static req initial_store
                   "www.costco.ca" x.1.1 x.1.2 x.2 _ _ _ _)).
  - split; [reflexivity | vm_compute; discriminate].
  - vm_compute. reflexivity.
  - reflexivity.
  - subst x. now destruct (scrape costco_static req initial_store) as [[? ?] ?].
Defined.

End RouterFacts.

Module FieldFacts.

Import HandlerFacts Scenario.

Lemma trimStart_all_ws_bounded n : forall s,
  String.length s <= n -> all_ws s = true -> trimStart s = EmptyString.
Proof.
  induction n as [|n IH]; intros s Hn Hs.
  - destruct s; [reflexivity | cbn in Hn; lia].
  - destruct s as [|a r1]; [reflexivity|]. cbn [String.length] in Hn.
    destruct (ws1 a) eqn:H1.
    { cbn in Hs |- *. rewrite H1 in Hs |- *. apply IH; [lia | exact Hs]. }
    destruct r1 as [|b r2]; [cbn in Hs; rewrite H1 in Hs; discriminate|].
    cbn [String.length] in Hn.
    destruct (ws2 a b) eqn:H2.
    { cbn in Hs |- *. rewrite H1, H2 in Hs |- *. apply IH; [lia | exact Hs]. }
    destruct r2 as [|c r3]; [cbn in Hs; rewrite H1, H2 in Hs; discriminate|].
    cbn [String.length] in Hn.
    cbn in Hs |- *. rewrite H1, H2 in Hs |- *.
    apply andb_prop in Hs. destruct Hs as [H3 Hs]. rewrite H3.
    apply IH; [lia | exact Hs].
Qed.

Lemma trim_all_ws s : all_ws s = true -> trim s = EmptyString.
Proof.
  intros H. unfold trim. now rewrite (trimStart_all_ws_bounded _ s (le_n _) H).
Qed.

Lemma ws2_not_comma a b : ws2 a b = true -> Ascii.eqb a "," = false.
Proof.
  unfold ws2. intros H. apply andb_prop in H. destruct H as [H _].
  apply N.eqb_eq in H. destruct (Ascii.eqb_spec a ","); [subst; discriminate | reflexivity].
Qed.

Lemma ws3_not_comma a b c :
  ws3 a b c = true ->
  Ascii.eqb a "," = false /\ Ascii.eqb b "," = false /\ Ascii.eqb c "," = false.
Proof.
  intros H. unfold ws3 in H.
  destruct (Ascii.eqb_spec a ","); [subst; discriminate|].
  destruct (Ascii.eqb_spec b ",");
    [subst; repeat (rewrite ?andb_false_r, ?orb_false_r in H; cbn in H);
     discriminate|].
  destruct (Ascii.eqb_spec c ","); [|auto].
  subst; repeat (rewrite ?andb_false_r, ?orb_false_r in H; cbn in H).
  discriminate.
Qed.

Lemma split_comma_cons s : exists seg segs, split_comma s = seg :: segs.
Proof.
  induction s as [|c r (seg & segs & IH)]; cbn; [eauto|].
  destruct (Ascii.eqb c ","); [eauto|]. rewrite IH. eauto.
Qed.

Lemma split_comma_push c s seg segs :
  Ascii.eqb c "," = false -> split_comma s = seg :: segs ->
  split_comma (String c s) = String c seg :: segs.
Proof. intros Hc Hs. cbn. now rewrite Hc, Hs. Qed.

Lemma blank_segments_bounded n : forall s,
  String.length s <= n -> blank s = true ->
  List.Forall (fun seg => all_ws seg = true) (split_comma s).
Proof.
  induction n as [|n IH]; intros s Hn Hs.
  - destruct s; [repeat constructor | cbn in Hn; lia].
  - destruct s as [|a r1]; [repeat constructor|].
    cbn [String.length] in Hn.
    destruct (Ascii.eqb a ",") eqn:Ha.
    { cbn in Hs |- *. rewrite Ha in Hs |- *. cbn in Hs.
      constructor; [reflexivity | apply IH; [lia | exact Hs]]. }
    destruct (ws1 a) eqn:H1.
    { assert (Hr : blank r1 = true) by (cbn in Hs; now rewrite Ha, H1 in Hs).
      specialize (IH r1 ltac:(lia) Hr).
      destruct (split_comma_cons r1) as (seg & segs & E). rewrite E in IH.
      rewrite (split_comma_push _ _ _ _ Ha E). inversion IH; subst.
      constructor; [cbn; now rewrite H1 | assumption]. }
    destruct r1 as [|b r2]; [cbn in Hs; now rewrite Ha, H1 in Hs|].
    cbn [String.length] in Hn.
    destruct (ws2 a b) eqn:H2.
    { assert (Hr : blank r2 = true) by (cbn in Hs; now rewrite Ha, H1, H2 in Hs).
      specialize (IH r2 ltac:(lia) Hr).
      destruct (split_comma_cons r2) as (seg & segs & E). rewrite E in IH.
      assert (Hb : Ascii.eqb b "," = false).
      { unfold ws2 in H2. apply andb_prop in H2. destruct H2 as [_ H2].
        apply N.eqb_eq in H2. destruct (Ascii.eqb_spec b ","); [subst; discriminate | reflexivity]. }
      rewrite (split_comma_push _ _ _ _ Ha (split_comma_push _ _ _ _ Hb E)).
      inversion IH; subst. constructor; [cbn; now rewrite H1, H2 | assumption]. }
    destruct r2 as [|c r3]; [cbn in Hs; now rewrite Ha, H1, H2 in Hs|].
    cbn [String.length] in Hn.
    assert (Hs' : ws3 a b c = true /\ blank r3 = true).
    { cbn in Hs. rewrite Ha, H1, H2 in Hs. cbn in Hs. now apply andb_prop in Hs. }
    destruct Hs' as [H3 Hr]. destruct (ws3_not_comma _ _ _ H3) as (_ & Hb & Hc).
    specialize (IH r3 ltac:(lia) Hr).
    destruct (split_comma_cons r3) as (seg & segs & E). rewrite E in IH.
    rewrite (split_comma_push _ _ _ _ Ha
               (split_comma_push _ _ _ _ Hb (split_comma_push _ _ _ _ Hc E))).
    inversion IH; subst. constructor; [cbn; now rewrite H1, H2, H3 | assumption].
Qed.

Lemma blank_wanted fs : blank (or_empty fs) = true -> wanted_of fs = [].
Proof.
  intros H. unfold wanted_of.
  pose proof (blank_segments_bounded _ _ (le_n _) H) as Hall.
  induction Hall as [|seg segs Hseg _ IH]; [reflexivity|].
  cbn. rewrite (trim_all_ws _ Hseg). exact IH.
Qed.

Lemma static_out_keys wanted m k :
  is_Some (static_out wanted m !! k) -> In k wanted /\ meta_field k = true.
Proof.
  unfold static_out, obj_set.
  change (String.eqb "c_price" "__proto__") with false.
  change (String.eqb "c_title" "__proto__") with false. cbv iota.
  destruct (wants wanted "c_price") eqn:Hp, (wants wanted "c_title") eqn:Ht;
    rewrite ?lookup_insert, ?lookup_empty;
    repeat case_decide; subst; intros [v Hv]; try discriminate;
    (split; [now apply RouterFacts.wants_In | reflexivity]).
Qed.

Lemma aligned_values (wanted : list string) (out : gmap string jsval) i j k :
  wanted !! i = Some k -> wanted !! j = Some k ->
  List.map (value_of out) wanted !! i = Some (value_of out k)
  /\ List.map (value_of out) wanted !! j = Some (value_of out k).
Proof.
  intros Hi Hj. change (List.map (value_of out) wanted) with (value_of out <$> wanted).
  rewrite !list_lookup_fmap, Hi, Hj. split; reflexivity.
Qed.

(** C10 as stated does not hold.  On the fast path [raw] only ever holds
    [c_price] and [c_title]: a duplicated [rating] is twice in [headers] and
    not at all in [raw].  And an answer served from the cache carries the
    [headers] it was stored with: the key joins url and fields with [::],
    so the request for fields [b,b] of url [http://x/::a] is served what
    was stored for fields [a::b,b] of url [http://x/], where [b] is listed
    once. *)
Lemma duplicates_counterexample :
  (let x := scrape costco_static (request costco_url "c_price,rating,rating")
              initial_store in
   exists p, json x.1.1 = JPayload p
     /\ headers p = ["c_price"; "rating"; "rating"]
     /\ raw p !! "rating" = None)
  /\ (let env := world 0 "x" no_fetch (Resolved tt) nothing in
      let x := scrape env (request "http://x/" "a::b,b") initial_store in
      let y := scrape env (request "http://x/::a" "b,b") x.1.2 in
      exists p, json y.1.1 = JPayload p
        /\ status y.1.1 = 200
        /\ headers p = ["a::b"; "b"]).
Proof.
  split; cbv zeta; eexists; (split; [vm_compute; reflexivity|]); vm_compute; auto.
Qed.

(** C10, amended: a [fields] parameter of commas and white space only is
    answered with the 400 error.  For an answer computed by the request
    itself (not served from the cache), [headers] is the list of trimmed
    non-empty segments with duplicates kept, [values] is aligned with it and
    equal names carry equal values; [raw] holds a name at most once: every
    requested name on the browser path, and only requested names among
    [c_price] and [c_title] on the fast path. *)
Theorem duplicates_kept env req s resp s' lg :
  scrape env req s = (resp, s', lg) ->
  let wanted := wanted_of (fields req) in
  wanted = List.filter nonempty (List.map trim (split_comma (or_empty (fields req))))
  /\ (blank (or_empty (fields req)) = true -> resp = refused)
  /\ (fresh_hit env s (key_of req) = None -> status resp = 200 ->
      exists p, json resp = JPayload p
        /\ headers p = wanted
        /\ values p = List.map (value_of (raw p)) wanted
        /\ (forall i j k, wanted !! i = Some k -> wanted !! j = Some k ->
              values p !! i = Some (value_of (raw p) k)
              /\ values p !! j = Some (value_of (raw p) k))
        /\ NoDup (map_to_list (raw p)).*1
        /\ (In (EGoto (or_empty (url req))) lg ->
              forall k, In k wanted -> is_Some (raw p !! k))
        /\ (~ In (EGoto (or_empty (url req))) lg ->
              forall k, is_Some (raw p !! k) -> In k wanted /\ meta_field k = true)).
Proof.
  intros H wanted. split; [reflexivity|]. split.
  - intros Hb. apply blank_wanted in Hb.
    rewrite scrape_refused in H; [congruence|].
    intros [_ Hw]. contradiction.
  - intros Hf H200. destruct (valid_dec req) as [Hv|Hv].
    2:{ rewrite (scrape_refused _ _ _ Hv) in H. inversion H; subst. discriminate. }
    rewrite (scrape_valid _ _ _ Hv), Hf in H. apply on_miss_settles in H.
    destruct H as [(evs0 & Hlg & Hev0) H].
    destruct H as [message s' lg Hc | h m Hh Hg Hm | out s' evs Hout Hc Hgo Hn Hcl].
    + discriminate.
    + eexists. split; [reflexivity|]. cbn [headers values raw result_of].
      split; [reflexivity|]. split; [reflexivity|].
      split; [intros i j k; apply aligned_values|].
      split; [apply NoDup_fst_map_to_list|].
      split; [intros [Hin|[]]; discriminate|].
      intros _ k. apply static_out_keys.
    + eexists. split; [reflexivity|]. cbn [headers values raw result_of].
      split; [reflexivity|]. split; [reflexivity|].
      split; [intros i j k; apply aligned_values|].
      split; [apply NoDup_fst_map_to_list|].
      split; [intros _; exact Hout|].
      intros Hno. exfalso. apply Hno. apply in_or_app. now right.
Qed.

Lemma duplicates_kept_witness :
  let req := request amazon_url "price, title,price," in
  let x := scrape (amazon 0) req initial_store in
  exists p, json x.1.1 = JPayload p
    /\ headers p = ["price"; "title"; "price"]
    /\ values p = List.map (value_of (raw p)) ["price"; "title"; "price"].
Proof.
  intros req x.
  destruct (duplicates_kept (amazon 0) req initial_store x.1.1 x.1.2 x.2)
    as (_ & _ & H).
  - subst x. now destruct (scrape (amazon 0) req initial_store) as [[? ?] ?].
  - destruct H as (p & Hj & Hh & Hv & _).
    + vm_compute. reflexivity.
    + vm_compute. reflexivity.
    + exists p. split; [exact Hj|]. split; [exact Hh | exact Hv].
Defined.

End FieldFacts.

Module SessionFacts.

Import Scenario.

Lemma perform_keeps_invariant a s :
  launched_at_most_once s ->
  launched_at_most_once (perform a s).2
  /\ (forall p, browserPromise s = Some p -> browserPromise (perform a s).2 = Some p)
  /\ (forall p, (perform a s).1 = Some p -> browserPromise (perform a s).2 = Some p).
Proof.
  intros Hs. destruct a as [o|key e|]; cbn.
  - unfold getBrowser_step. destruct (browserPromise s) as [p|] eqn:Hp; cbn.
    + rewrite Hp. split; [exact Hs|]. split; [auto | intros q [= <-]; reflexivity].
    + destruct Hs as [[_ Hl] | (p & Hp' & _)]; [|congruence].
      rewrite Hl. split; [right; eauto|]. split; [discriminate | intros q [= <-]; reflexivity].
  - split; [exact Hs|]. split; [auto | discriminate].
  - split; [exact Hs|]. split; [auto | discriminate].
Qed.

Lemma perform_all_invariant acts : forall s,
  launched_at_most_once s ->
  launched_at_most_once (perform_all acts s).2
  /\ (forall p, browserPromise s = Some p ->
        browserPromise (perform_all acts s).2 = Some p)
  /\ (forall p, In p (perform_all acts s).1 ->
        browserPromise (perform_all acts s).2 = Some p).
Proof.
  induction acts as [|a rest IH]; intros s Hs.
  - cbn. split; [exact Hs|]. split; [auto | intros p []].
  - cbn [perform_all].
    destruct (perform_keeps_invariant a s Hs) as (Hinv & Hkeep & Hret).
    destruct (perform a s) as [p s1]. cbn [fst snd] in *.
    destruct (IH s1 Hinv) as (Hinv' & Hkeep' & Hret').
    destruct (perform_all rest s1) as [ps s2]. cbn [fst snd] in *.
    split; [exact Hinv'|]. split; [auto|].
    intros q Hq. destruct p as [p|]; [|auto].
    destruct Hq as [<-|Hq]; [|auto]. apply Hkeep', Hret. reflexivity.
Qed.

(** C8: over any schedule of the uninterrupted steps that touch the store,
    started from the initial store, [chromium.launch] is called at most
    once, and every call of [getBrowser] is handed the same promise, the one
    of launch 0. *)
Theorem getBrowser_launches_once (acts : list action) :
  let ps := (perform_all acts initial_store).1 in
  let s := (perform_all acts initial_store).2 in
  launches s <= 1
  /\ (forall p q, In p ps -> In q ps -> p = q /\ launch_id p = 0)
  /\ (ps <> [] -> launches s = 1).
Proof.
  intros ps s.
  destruct (perform_all_invariant acts initial_store) as (Hinv & _ & Hret);
    [left; split; reflexivity|].
  fold s in Hinv, Hret. fold ps in Hret. split; [|split].
  - destruct Hinv as [[_ ->] | (p & _ & -> & _)]; lia.
  - intros p q Hp Hq. pose proof (Hret p Hp) as Ep. pose proof (Hret q Hq) as Eq.
    rewrite Ep in Eq. injection Eq as <-. split; [reflexivity|].
    destruct Hinv as [[Hn _] | (p' & Hp' & _ & Hid)]; congruence.
  - intros Hne. destruct ps as [|p ps']; [congruence|].
    pose proof (Hret p (or_introl eq_refl)) as Ep.
    destruct Hinv as [[Hn _] | (p' & _ & Hl & _)]; congruence.
Qed.

Lemma getBrowser_launches_once_witness :
  let acts := [AGetBrowser (Resolved tt); AOpenContext;
               AGetBrowser (Rejected "second launch");
               AGetBrowser (Resolved tt)] in
  launches (perform_all acts initial_store).2 = 1
  /\ (perform_all acts initial_store).1
     = [ {| launch_id := 0; settles := Resolved tt |};
         {| launch_id := 0; settles := Resolved tt |};
         {| launch_id := 0; settles := Resolved tt |} ].
Proof.
  intros acts.
  destruct (getBrowser_launches_once acts) as (_ & _ & H).
  split; [apply H; vm_compute; discriminate | vm_compute; reflexivity].
Defined.

(** C2: the navigation times out after the context was created; the handler
    answers 500 from its [catch] and [context.close()] was never called. *)
Theorem context_leaks_on_navigation_timeout :
  let x := scrape amazon_timeout (request amazon_url "price") initial_store in
  x.1.1 = {| status := 500; http_headers := [];
             json := JError "page.goto: Timeout 30000ms exceeded." |}
  /\ x.2 = [ELaunch 0; ENewContext 0; ENewPage 0; ERoute; ESetExtraHTTPHeaders;
            EGoto amazon_url]
  /\ contexts x.1.2 = 1
  /\ closes 0 x.2 = 0.
Proof. vm_compute. auto. Qed.

(** C5: the same Costco price, "19.99", is the string "19.99" when the fast
    path answers and the number 19.99 when the browser path answers. *)
Theorem fast_path_skips_normalizer :
  let req := request costco_url "c_price" in
  let fast := scrape costco_static req initial_store in
  let rendered := scrape costco_rendered req initial_store in
  (exists p, json fast.1.1 = JPayload p /\ values p = [VStr "19.99"])
  /\ (exists p, json rendered.1.1 = JPayload p
               /\ values p = [VNum (Decimal false 1999 (-2))])
  /\ Normalizer.normalize "c_price" (Some "19.99") = VNum (Decimal false 1999 (-2)).
Proof.
  cbv zeta. split; [|split].
  - eexists. split; vm_compute; reflexivity.
  - eexists. split; vm_compute; reflexivity.
  - vm_compute. reflexivity.
Qed.

(** C6: the header [Cache-Control: public, max-age=900] is set on the
    browser path only: the 200 answer of the fast path and the 200 answer
    served from the cache carry no header at all. *)
Theorem cache_control_only_on_browser_path :
  let fast := scrape costco_static (request costco_url "c_price") initial_store in
  let first := scrape (amazon 0) (request amazon_url "price") initial_store in
  let again := scrape (amazon 1000) (request amazon_url "price") first.1.2 in
  (status fast.1.1 = 200 /\ http_headers fast.1.1 = [])
  /\ (status first.1.1 = 200 /\ http_headers first.1.1 = [cache_control])
  /\ (status again.1.1 = 200 /\ http_headers again.1.1 = [] /\ again.2 = []).
Proof. vm_compute. auto 10. Qed.

(** C9: [constructor] is not in the catalog, but the catalog object inherits
    a member of that name, which is not iterable. *)
Theorem inherited_field_name_fails :
  let x := scrape (amazon 0) (request amazon_url "constructor") initial_store in
  selectors !! "constructor" = None
  /\ x.1.1 = {| status := 500; http_headers := [];
               json := JError "cands is not iterable" |}
  /\ closes 0 x.2 = 0.
Proof. vm_compute. auto. Qed.

Lemma perform_all_app a1 a2 s :
  (perform_all (a1 ++ a2) s).2 = (perform_all a2 (perform_all a1 s).2).2.
Proof.
  revert s. induction a1 as [|a a1 IH]; intros s; [reflexivity|].
  cbn [app perform_all]. destruct (perform a s) as [p s1].
  specialize (IH s1). destruct (perform_all (a1 ++ a2) s1) as [ps s2].
  destruct (perform_all a1 s1) as [ps1 s3]. exact IH.
Qed.

Lemma steps_same {A : Type} (m : M A) :
  (forall r o r', m r = (o, r') -> store r' = store r) -> store_steps m.
Proof. intros H r o r' Hm. exists []. exact (H _ _ _ Hm). Qed.

Lemma steps_bind {A B : Type} (m : M A) (k : A -> M B) :
  store_steps m -> (forall a, store_steps (k a)) -> store_steps (bind m k).
Proof.
  intros Hm Hk r o r' H. unfold bind in H.
  destruct (m r) as [[a|e] r1] eqn:E; destruct (Hm _ _ _ E) as [a1 H1].
  - destruct (Hk a _ _ _ H) as [a2 H2]. exists (a1 ++ a2).
    now rewrite perform_all_app, <- H1.
  - inversion H; subst. eauto.
Qed.

Lemma steps_ret {A : Type} (a : A) : store_steps (ret a).
Proof. apply steps_same. intros r o r' [= _ <-]. reflexivity. Qed.

Lemma steps_throw {A : Type} e : store_steps (@throw A e).
Proof. apply steps_same. intros r o r' [= _ <-]. reflexivity. Qed.

Lemma steps_await {A : Type} (x : outcome A) : store_steps (await x).
Proof. apply steps_same. intros r o r' [= _ <-]. reflexivity. Qed.

Lemma steps_emit e : store_steps (emit e).
Proof. apply steps_same. intros r o r' [= _ <-]. reflexivity. Qed.

Lemma steps_getBrowser env : store_steps (getBrowser env).
Proof.
  intros r o r' H. exists [AGetBrowser (launch env)].
  unfold getBrowser in H. cbn [perform_all perform].
  destruct (getBrowser_step (launch env) (store r)) as [[p s1] evs].
  inversion H; subst. reflexivity.
Qed.

Lemma steps_await_browser p : store_steps (await_browser p).
Proof. unfold await_browser. destruct (settles p); [apply steps_ret | apply steps_throw]. Qed.

Lemma steps_open_context env : store_steps (open_context env).
Proof.
  intros r o r' H. unfold open_context, bind, await, get_store, put_store, emit, ret in H.
  destruct (newContext env); cbn in H; inversion H; subst; cbn.
  - exists [AOpenContext]. reflexivity.
  - exists []. reflexivity.
Qed.

Lemma steps_cache_set key e : store_steps (cache_set key e).
Proof.
  intros r o r' H. exists [ACacheSet key e].
  unfold cache_set, bind, get_store, put_store in H. inversion H; subst. reflexivity.
Qed.

Lemma steps_extract_fields env keys out : store_steps (extract_fields env keys out).
Proof.
  apply steps_same. intros r o r' H. apply extract_fields_run in H. apply H.
Qed.

Lemma steps_browser_path env u key wanted : store_steps (browser_path env u key wanted).
Proof.
  unfold browser_path.
  repeat first
    [ apply steps_getBrowser | apply steps_await_browser | apply steps_open_context
    | apply steps_emit | apply steps_await | apply steps_extract_fields
    | apply steps_cache_set | apply steps_ret
    | apply steps_bind; [|intros ?] ].
Qed.

Lemma steps_on_miss env u key wanted : store_steps (on_miss env u key wanted).
Proof.
  unfold on_miss. destruct (url_hostname env u) as [h|]; [|apply steps_throw].
  destruct (fast_path_guard h wanted); [|apply steps_browser_path].
  apply steps_bind.
  - apply steps_bind; [apply steps_emit | intros; apply steps_ret].
  - intros [m|]; [|apply steps_browser_path].
    apply steps_bind; [apply steps_cache_set | intros; apply steps_ret].
Qed.

Lemma steps_scrape_body env req : store_steps (scrape_body env req).
Proof.
  unfold scrape_body.
  match goal with
  | |- store_steps (if ?c then _ else _) => destruct c; [apply steps_ret|]
  end.
  intros r o r' H. unfold bind, get_store in H.
  destruct (cache (store r) !! _) as [hit|].
  - destruct (now_check env - entry_t hit <? TTL)%Z.
    + exact (steps_ret _ _ _ _ H).
    + exact (steps_on_miss _ _ _ _ _ _ _ H).
  - exact (steps_on_miss _ _ _ _ _ _ _ H).
Qed.

(** A run of the handler changes the store only by steps of a schedule. *)
Lemma scrape_store_steps env req s :
  exists acts, (scrape env req s).1.2 = (perform_all acts s).2.
Proof.
  unfold scrape, settle.
  destruct (scrape_body env req (start s)) as [o r] eqn:H.
  apply steps_scrape_body in H. exact H.
Qed.

Lemma serve_store_steps reqs : forall s,
  exists acts, serve reqs s = (perform_all acts s).2.
Proof.
  induction reqs as [|[env req] rest IH]; intros s; [exists []; reflexivity|].
  cbn [serve]. destruct (scrape_store_steps env req s) as [a1 H1].
  destruct (IH (scrape env req s).1.2) as [a2 H2].
  exists (a1 ++ a2). now rewrite perform_all_app, <- H1.
Qed.

Lemma serve_launches_once reqs : launches (serve reqs initial_store) <= 1.
Proof.
  destruct (serve_store_steps reqs initial_store) as [acts ->].
  destruct (perform_all_invariant acts initial_store) as (Hinv & _);
    [left; split; reflexivity|].
  destruct Hinv as [[_ ->] | (p & _ & -> & _)]; lia.
Qed.

End SessionFacts.

(** ** Strings of the handler *)

Module StringFacts.

Lemma trimStart_suffix_bounded n : forall s,
  String.length s <= n ->
  exists pre, s = (pre ++ trimStart s)%string /\ head_clear (trimStart s) = true.
Proof.
  induction n as [|n IH]; intros s Hn.
  - destruct s; [exists EmptyString; split; reflexivity | cbn in Hn; lia].
  - destruct s as [|a r1]; [exists EmptyString; split; reflexivity|].
    cbn [String.length] in Hn.
    destruct (ws1 a) eqn:H1.
    { destruct (IH r1 ltac:(lia)) as (pre & E & Hc). exists (String a pre).
      cbn. rewrite H1. cbn. split; [rewrite E at 1; reflexivity | exact Hc]. }
    destruct r1 as [|b r2].
    { exists EmptyString. cbn. rewrite H1. cbn. now rewrite H1. }
    cbn [String.length] in Hn.
    destruct (ws2 a b) eqn:H2.
    { destruct (IH r2 ltac:(lia)) as (pre & E & Hc). exists (String a (String b pre)).
      cbn. rewrite H1, H2. cbn. split; [rewrite E at 1; reflexivity | exact Hc]. }
    destruct r2 as [|c r3].
    { exists EmptyString. cbn. rewrite H1, H2. cbn. now rewrite H1, H2. }
    cbn [String.length] in Hn.
    destruct (ws3 a b c) eqn:H3.
    { destruct (IH r3 ltac:(lia)) as (pre & E & Hc).
      exists (String a (String b (String c pre))).
      cbn. rewrite H1, H2, H3. cbn. split; [rewrite E at 1; reflexivity | exact Hc]. }
    exists EmptyString. cbn. rewrite H1, H2, H3. cbn. now rewrite H1, H2, H3.
Qed.

Lemma trimStart_suffix s :
  exists pre, s = (pre ++ trimStart s)%string /\ head_clear (trimStart s) = true.
Proof. exact (trimStart_suffix_bounded _ s (le_n _)). Qed.

Lemma head_clear_fixed s : head_clear s = true -> trimStart s = s.
Proof.
  destruct s as [|a [|b [|c r3]]]; cbn; intros H; try reflexivity.
  - apply andb_prop in H. destruct H as [H1 _]. apply negb_true_iff in H1. now rewrite H1.
  - apply andb_prop in H. destruct H as [H1 H]. apply andb_prop in H. destruct H as [H2 _].
    apply negb_true_iff in H1, H2. now rewrite H1, H2.
  - apply andb_prop in H. destruct H as [H1 H]. apply andb_prop in H. destruct H as [H2 H3].
    apply negb_true_iff in H1, H2, H3. now rewrite H1, H2, H3.
Qed.

Lemma trimStart_mirror_suffix_bounded n : forall s,
  String.length s <= n ->
  exists pre, s = (pre ++ trimStart_mirror s)%string
              /\ tail_clear (trimStart_mirror s) = true.
Proof.
  induction n as [|n IH]; intros s Hn.
  - destruct s; [exists EmptyString; split; reflexivity | cbn in Hn; lia].
  - destruct s as [|a r1]; [exists EmptyString; split; reflexivity|].
    cbn [String.length] in Hn.
    destruct (ws1 a) eqn:H1.
    { destruct (IH r1 ltac:(lia)) as (pre & E & Hc). exists (String a pre).
      cbn. rewrite H1. cbn. split; [rewrite E at 1; reflexivity | exact Hc]. }
    destruct r1 as [|b r2].
    { exists EmptyString. cbn. rewrite H1. cbn. now rewrite H1. }
    cbn [String.length] in Hn.
    destruct (ws2 b a) eqn:H2.
    { destruct (IH r2 ltac:(lia)) as (pre & E & Hc). exists (String a (String b pre)).
      cbn. rewrite H1, H2. cbn. split; [rewrite E at 1; reflexivity | exact Hc]. }
    destruct r2 as [|c r3].
    { exists EmptyString. cbn. rewrite H1, H2. cbn. now rewrite H1, H2. }
    cbn [String.length] in Hn.
    destruct (ws3 c b a) eqn:H3.
    { destruct (IH r3 ltac:(lia)) as (pre & E & Hc).
      exists (String a (String b (String c pre))).
      cbn. rewrite H1, H2, H3. cbn. split; [rewrite E at 1; reflexivity | exact Hc]. }
    exists EmptyString. cbn. rewrite H1, H2, H3. cbn. now rewrite H1, H2, H3.
Qed.

Lemma tail_clear_fixed s : tail_clear s = true -> trimStart_mirror s = s.
Proof.
  destruct s as [|a [|b [|c r3]]]; cbn; intros H; try reflexivity.
  - apply andb_prop in H. destruct H as [H1 _]. apply negb_true_iff in H1. now rewrite H1.
  - apply andb_prop in H. destruct H as [H1 H]. apply andb_prop in H. destruct H as [H2 _].
    apply negb_true_iff in H1, H2. now rewrite H1, H2.
  - apply andb_prop in H. destruct H as [H1 H]. apply andb_prop in H. destruct H as [H2 H3].
    apply negb_true_iff in H1, H2, H3. now rewrite H1, H2, H3.
Qed.

Lemma append_cons c (a b : string) :
  (String c a ++ b)%string = String c (a ++ b)%string.
Proof. reflexivity. Qed.

Lemma append_empty_r (s : string) : (s ++ EmptyString)%string = s.
Proof. induction s as [|c s IH]; [reflexivity|]. now rewrite append_cons, IH. Qed.

Lemma append_assoc (a b c : string) :
  ((a ++ b) ++ c)%string = (a ++ (b ++ c))%string.
Proof.
  induction a as [|x a IH]; [reflexivity|]. now rewrite !append_cons, IH.
Qed.

Lemma rev_onto_app s : forall acc, rev_onto s acc = (reverse s ++ acc)%string.
Proof.
  unfold reverse. induction s as [|c r IH]; intros acc; [reflexivity|].
  cbn [rev_onto]. rewrite IH, (IH (String c EmptyString)), append_assoc.
  reflexivity.
Qed.

Lemma reverse_cons c s :
  reverse (String c s) = (reverse s ++ String c EmptyString)%string.
Proof. unfold reverse at 1. cbn [rev_onto]. apply rev_onto_app. Qed.

Lemma reverse_app a b : reverse (a ++ b) = (reverse b ++ reverse a)%string.
Proof.
  induction a as [|c a IH].
  - change (EmptyString ++ b)%string with b. change (reverse EmptyString) with EmptyString.
    now rewrite append_empty_r.
  - now rewrite append_cons, !reverse_cons, IH, append_assoc.
Qed.

Lemma reverse_involutive s : reverse (reverse s) = s.
Proof.
  induction s as [|c r IH]; [reflexivity|].
  now rewrite reverse_cons, reverse_app, IH.
Qed.

Lemma head_clear_prefix p q :
  head_clear (p ++ q) = true -> head_clear p = true.
Proof.
  destruct p as [|a [|b [|c p]]]; cbn [head_clear]; rewrite ?append_cons;
    cbn [head_clear]; intros H; try reflexivity.
  - apply andb_prop in H. destruct H as [-> _]. reflexivity.
  - apply andb_prop in H. destruct H as [-> H]. destruct q as [|c q].
    + exact H.
    + change (EmptyString ++ String c q)%string with (String c q) in H.
      apply andb_prop in H. destruct H as [-> _]. reflexivity.
  - exact H.
Qed.

Lemma trimEnd_prefix s :
  exists post, s = (trimEnd s ++ post)%string
               /\ tail_clear (reverse (trimEnd s)) = true.
Proof.
  destruct (trimStart_mirror_suffix_bounded _ (reverse s) (le_n _)) as (pre & E & Hc).
  exists (reverse pre). unfold trimEnd. rewrite reverse_involutive. split; [|exact Hc].
  rewrite <- reverse_app, <- E. symmetry. apply reverse_involutive.
Qed.

Lemma trim_idempotent s : trim (trim s) = trim s.
Proof.
  unfold trim at 2 3.
  destruct (trimStart_suffix s) as (pre & _ & Hc).
  destruct (trimEnd_prefix (trimStart s)) as (post & E & Ht).
  set (k := trimEnd (trimStart s)) in *.
  rewrite E in Hc. apply head_clear_prefix in Hc.
  unfold trim. rewrite (head_clear_fixed _ Hc).
  unfold trimEnd at 1. rewrite (tail_clear_fixed _ Ht). apply reverse_involutive.
Qed.

Lemma comma_free_app a b :
  comma_free (a ++ b) = comma_free a && comma_free b.
Proof.
  induction a as [|c a IH]; [reflexivity|].
  rewrite append_cons. cbn [comma_free]. now rewrite IH, andb_assoc.
Qed.

Lemma comma_free_reverse s : comma_free (reverse s) = comma_free s.
Proof.
  induction s as [|c s IH]; [reflexivity|].
  rewrite reverse_cons, comma_free_app, IH. cbn [comma_free].
  rewrite andb_true_r. apply andb_comm.
Qed.

Lemma comma_free_trim s : comma_free s = true -> comma_free (trim s) = true.
Proof.
  intros H. unfold trim.
  destruct (trimStart_suffix s) as (pre & E & _).
  rewrite E, comma_free_app in H. apply andb_prop in H. destruct H as [_ H].
  destruct (trimEnd_prefix (trimStart s)) as (post & E' & _).
  rewrite E', comma_free_app in H. apply andb_prop in H. tauto.
Qed.

Lemma split_comma_comma_free s :
  List.Forall (fun seg => comma_free seg = true) (split_comma s).
Proof.
  induction s as [|c r IH]; cbn [split_comma]; [repeat constructor|].
  destruct (Ascii.eqb c ",") eqn:Hc; [constructor; [reflexivity | exact IH]|].
  destruct (split_comma r) as [|seg segs]; [repeat constructor; cbn; now rewrite Hc|].
  inversion IH; subst. constructor; [cbn; now rewrite Hc | assumption].
Qed.

Lemma nonempty_true s : nonempty s = true <-> s <> EmptyString.
Proof. destruct s; cbn; split; congruence. Qed.

Lemma wanted_field_names fs k : In k (wanted_of fs) -> field_name k.
Proof.
  unfold wanted_of. intros H. apply filter_In in H. destruct H as [H Hne].
  apply in_map_iff in H. destruct H as (seg & <- & Hseg).
  split; [now apply nonempty_true|]. split; [|apply trim_idempotent].
  apply comma_free_trim.
  pose proof (split_comma_comma_free (or_empty fs)) as Hall.
  rewrite List.Forall_forall in Hall. now apply Hall.
Qed.

Lemma split_comma_single k :
  comma_free k = true -> split_comma k = [k].
Proof.
  induction k as [|c k IH]; [reflexivity|]. cbn [comma_free split_comma].
  intros H. apply andb_prop in H. destruct H as [Hc Hk].
  apply negb_true_iff in Hc. now rewrite Hc, (IH Hk).
Qed.

Lemma split_comma_app k rest :
  comma_free k = true ->
  split_comma (k ++ String "," rest) = k :: split_comma rest.
Proof.
  induction k as [|c k IH]; [reflexivity|]. cbn [comma_free].
  intros H. apply andb_prop in H. destruct H as [Hc Hk].
  apply negb_true_iff in Hc. rewrite append_cons. cbn [split_comma].
  now rewrite Hc, (IH Hk).
Qed.

Lemma split_comma_join w :
  w <> [] -> List.Forall (fun k => comma_free k = true) w ->
  split_comma (join_comma w) = w.
Proof.
  intros Hne Hall. induction Hall as [|k w Hk Hall IH]; [congruence|].
  destruct w as [|k' w'].
  - cbn. now apply split_comma_single.
  - change (join_comma (k :: k' :: w'))
      with (k ++ String "," (join_comma (k' :: w')))%string.
    rewrite (split_comma_app _ _ Hk), IH; [reflexivity | discriminate].
Qed.

Lemma wanted_of_join w :
  List.Forall field_name w -> wanted_of (Some (join_comma w)) = w.
Proof.
  intros Hall. destruct w as [|k0 w0]; [reflexivity|].
  unfold wanted_of. cbn [or_empty]. rewrite split_comma_join.
  - induction Hall as [|k w (Hne & _ & Ht) _ IH]; [reflexivity|].
    cbn [List.map List.filter]. rewrite Ht.
    apply nonempty_true in Hne. now rewrite Hne, IH.
  - discriminate.
  - eapply List.Forall_impl; [|exact Hall]. intros k (_ & H & _). exact H.
Qed.

End StringFacts.

(** ** Numbers of the normalizer *)

Module NumberFacts.

Import Parse.

Lemma kept_cases c :
  kept c = true ->
  In c ["0"; "1"; "2"; "3"; "4"; "5"; "6"; "7"; "8"; "9"; "."; ","]%char.
Proof.
  destruct c as [[] [] [] [] [] [] [] []]; intros H;
    try discriminate H; cbn; tauto.
Qed.

Lemma trimStart_kept c r : kept c = true -> trimStart (String c r) = String c r.
Proof.
  intros H. apply kept_cases in H. cbn in H.
  repeat (destruct H as [<-|H]; [destruct r as [|b [|c' r3]]; reflexivity|]).
  contradiction.
Qed.

Lemma all_kept_strip s : all_kept (strip s) = true.
Proof.
  induction s as [|c r IH]; [reflexivity|]. cbn [strip].
  destruct (kept c) eqn:Hc; [cbn; now rewrite Hc | exact IH].
Qed.

Lemma all_kept_comma_to_period s :
  all_kept s = true -> all_kept (comma_to_period s) = true.
Proof.
  induction s as [|c r IH]; [reflexivity|]. cbn [all_kept comma_to_period].
  intros H. apply andb_prop in H. destruct H as [Hc Hr].
  destruct (Ascii.eqb c ","); cbn [all_kept]; [exact Hr | now rewrite Hc, IH].
Qed.

Lemma span_digits_rest s :
  all_kept s = true ->
  all_kept (snd (span_digits s)) = true
  /\ match snd (span_digits s) with
     | String c _ => is_digit c = false
     | EmptyString => True
     end
  /\ (nonempty (fst (span_digits s)) = true <->
      match s with String c _ => is_digit c = true | EmptyString => False end).
Proof.
  induction s as [|c r IH]; [cbn; intuition discriminate|].
  cbn [all_kept span_digits]. intros H. apply andb_prop in H. destruct H as [Hc Hr].
  destruct (is_digit c) eqn:Hd.
  - destruct (IH Hr) as (H1 & H2 & _). destruct (span_digits r) as [ds rest].
    cbn in *. tauto.
  - cbn. rewrite Hc, Hr, Hd. intuition discriminate.
Qed.

Lemma exponent_part_kept s :
  all_kept s = true -> exponent_part s = 0%Z.
Proof.
  destruct s as [|c r]; [reflexivity|]. cbn [all_kept]. intros H.
  apply andb_prop in H. destruct H as [Hc _]. apply kept_cases in Hc. cbn in Hc.
  repeat (destruct Hc as [<-|Hc]; [reflexivity|]). contradiction.
Qed.

Lemma signless_kept c r :
  kept c = true ->
  match String c r with
  | String "-"%char r' => (true, r')
  | String "+"%char r' => (false, r')
  | _ => (false, String c r)
  end = (false, String c r)
  /\ startsWith "Infinity" (String c r) = false.
Proof.
  intros H. apply kept_cases in H. cbn in H.
  repeat (destruct H as [<-|H]; [split; reflexivity|]). contradiction.
Qed.

Lemma fraction_kept ip r :
  all_kept r = true ->
  (nonempty ip || nonempty (fst (span_digits r))
   = nonempty ip || match r with String d _ => is_digit d | EmptyString => false end)
  /\ (let '(fp, r2) := span_digits r in
      if nonempty ip || nonempty fp
      then Decimal false (digits_value (ip ++ fp))
             (exponent_part r2 - Z.of_nat (String.length fp))
      else NaN)
     = (if nonempty ip || nonempty (fst (span_digits r))
        then Decimal false (digits_value (ip ++ fst (span_digits r)))
               (- Z.of_nat (String.length (fst (span_digits r))))
        else NaN).
Proof.
  intros Hr. destruct (span_digits_rest r Hr) as (Hrest & _ & Hfp).
  destruct (span_digits r) as [fp r2]. cbn [fst snd] in *.
  rewrite (exponent_part_kept _ Hrest). split; [|reflexivity].
  f_equal. destruct r as [|d r'].
  - destruct (nonempty fp); [exfalso; tauto | reflexivity].
  - destruct (nonempty fp), (is_digit d); try reflexivity; exfalso;
      destruct Hfp as [H1 H2]; [specialize (H1 eq_refl) | specialize (H2 eq_refl)];
      discriminate.
Qed.

(** The literal read in a text of digits, periods and commas. *)
Lemma literal_kept s :
  all_kept s = true ->
  (numeric_head s = false /\ literal s = NaN)
  \/ (numeric_head s = true
      /\ exists m e, literal s = Decimal false m e /\ (e <= 0)%Z).
Proof.
  intros Hs. destruct s as [|c r]; [left; split; reflexivity|].
  pose proof Hs as Hk. cbn [all_kept] in Hk. apply andb_prop in Hk.
  destruct Hk as [Hc Hr].
  unfold literal. rewrite (trimStart_kept c r Hc).
  destruct (signless_kept c r Hc) as [-> ->].
  destruct (span_digits_rest _ Hs) as (Hrest & Hstop & Hip).
  destruct (span_digits (String c r)) as [ip r1] eqn:Hspan. cbn [fst snd] in *.
  destruct r1 as [|c1 r'].
  - (* the digits run to the end *)
    destruct (nonempty ip) eqn:Hn.
    + right. split; [cbn; now rewrite (proj1 Hip eq_refl)|].
      eexists _, _. split; [reflexivity | cbn; lia].
    + exfalso. cbn [span_digits] in Hspan. destruct (is_digit c).
      * destruct (span_digits r); injection Hspan as <- _. discriminate Hn.
      * discriminate Hspan.
  - cbn [all_kept] in Hrest. apply andb_prop in Hrest. destruct Hrest as [Hc1 Hr'].
    pose proof (kept_cases _ Hc1) as Hcases. cbn in Hcases.
    repeat (destruct Hcases as [<-|Hcases]; [try discriminate Hstop|]);
      [| |contradiction].
    + (* a period follows the digits *)
      destruct (fraction_kept ip r' Hr') as [Hnum ->].
      assert (Hr1 : is_digit c = false -> ip = EmptyString /\ r = r' /\ c = "."%char).
      { intros Hd. cbn [span_digits] in Hspan. rewrite Hd in Hspan.
        injection Hspan as E1 E2 E3. subst. auto. }
      destruct (is_digit c) eqn:Hd.
      * right. split; [cbn; now rewrite Hd|].
        rewrite (proj2 Hip eq_refl). cbn [orb].
        eexists _, _. split; [reflexivity | lia].
      * destruct (Hr1 eq_refl) as (-> & -> & ->). rewrite Hnum. cbn [nonempty orb].
        cbn [numeric_head]. cbn [is_digit code N_of_ascii]. cbn.
        destruct r' as [|d r'']; [left; split; reflexivity|].
        destruct (is_digit d); [right | left]; (split; [reflexivity|]);
          [eexists _, _; split; [reflexivity | lia] | reflexivity].
    + (* a comma follows the digits, or comes first *)
      rewrite (exponent_part_kept (String "," r')) by (cbn; exact Hr').
      destruct (is_digit c) eqn:Hd.
      * right. split; [cbn; now rewrite Hd|].
        rewrite (proj2 Hip eq_refl). eexists _, _. split; [reflexivity | lia].
      * cbn [span_digits] in Hspan. rewrite Hd in Hspan.
        injection Hspan as E1 E2 E3. subst. left. split; reflexivity.
Qed.

(** The boundary is where the engines have it: the decimal
    1.7976931348623158e308 still rounds to the largest double,
    1.7976931348623159e308 is an infinity. *)
Lemma overflow_boundary :
  parseFloat "1.7976931348623158e308" = Decimal false 17976931348623158 292
  /\ parseFloat "1.7976931348623159e308" = Infinity false
  /\ parseFloat "-1.7976931348623159e308" = Infinity true.
Proof. repeat split; vm_compute; reflexivity. Qed.

(** What [parseFloat] gives for a text of digits, periods and commas: NaN,
    or the unsigned decimal it reads, or plus infinity when that decimal
    is out of the range of the doubles. *)
Lemma parseFloat_kept s :
  all_kept s = true ->
  (numeric_head s = false /\ parseFloat s = NaN)
  \/ (numeric_head s = true
      /\ exists m e,
           literal s = Decimal false m e /\ (e <= 0)%Z
           /\ parseFloat s
              = if overflows m e then Infinity false else Decimal false m e).
Proof.
  intros Hs. unfold parseFloat.
  destruct (literal_kept s Hs) as [[Hh ->] | (Hh & m & e & -> & He)].
  - now left.
  - right. split; [exact Hh|]. exists m, e. auto.
Qed.

End NumberFacts.

(** ** The field list and the cache key *)

Import HandlerFacts Scenario StringFacts NumberFacts.

Module FieldListFacts.

Lemma append_cancel_l (a b c : string) :
  (a ++ b)%string = (a ++ c)%string -> b = c.
Proof.
  induction a as [|x a IH]; [auto|]. rewrite !append_cons. intros [= H]. auto.
Qed.

Lemma wanted_all_field_names fs : List.Forall field_name (wanted_of fs).
Proof. apply List.Forall_forall. intros k. apply wanted_field_names. Qed.

(** X1: every name that line 57 lets through is not empty, holds no comma
    and has no white space at either end. *)
Theorem wanted_are_field_names (fs : option string) (k : string) :
  In k (wanted_of fs) ->
  k <> EmptyString /\ comma_free k = true /\ trim k = k.
Proof. exact (wanted_field_names fs k). Qed.

Lemma wanted_are_field_names_witness :
  comma_free "c_price" = true /\ trim "c_price" = "c_price".
Proof.
  destruct (wanted_are_field_names (Some " ,price ,, c_price ") "c_price")
    as (_ & H1 & H2).
  - vm_compute. auto.
  - split; assumption.
Defined.

(** X2: the parsed field list is a fixed point of line 57: joined with
    commas (as in the cache key, or as the [headers] of an answer) and
    parsed again, it is the same list. *)
Theorem wanted_of_join_stable (fs : option string) :
  wanted_of (Some (join_comma (wanted_of fs))) = wanted_of fs.
Proof. apply wanted_of_join, wanted_all_field_names. Qed.

(** X3: for one url, the cache key determines the parsed field list: two
    requests with the same url and the same key ask for the same fields in
    the same order. *)
Theorem same_url_same_key_same_fields (req1 req2 : Request) :
  url req1 = url req2 ->
  key_of req1 = key_of req2 ->
  wanted_of (fields req1) = wanted_of (fields req2).
Proof.
  unfold key_of, cacheKey. intros -> H.
  apply append_cancel_l in H. apply (append_cancel_l "::") in H.
  rewrite <- (wanted_of_join (wanted_of (fields req1))),
          <- (wanted_of_join (wanted_of (fields req2)));
    [now rewrite H | apply wanted_all_field_names | apply wanted_all_field_names].
Qed.

Lemma same_url_same_key_same_fields_witness :
  wanted_of (Some "price, title") = wanted_of (Some ",price,title,,").
Proof.
  apply (same_url_same_key_same_fields
           (request amazon_url "price, title") (request amazon_url ",price,title,,")).
  - reflexivity.
  - vm_compute. reflexivity.
Defined.

End FieldListFacts.

Module NormalizerShape.

Import Parse.


(** Both number cases occur: a price of 309 nines is beyond the largest
    double and is stored as plus infinity, a one followed by 308 zeros is
    within range and is stored as that number. *)
Lemma price_out_of_range :
  normalize "price" (Some (repeat_char 309 "9")) = VNum (Infinity false)
  /\ normalize "price" (Some (String "1" (repeat_char 308 "0")))
     = VNum (Decimal false (10 ^ 308) 0).
Proof. split; vm_compute; reflexivity. Qed.

(** X5: a price-like field with a non-empty text becomes a number exactly
    when, once the other characters are dropped and the first comma is a
    period, the text starts with a digit or with a period and a digit;
    otherwise the text is stored as it was extracted. *)
Theorem price_is_number_iff (key raw : string) :
  includes "price" key = true ->
  raw <> EmptyString ->
  ((exists n, normalize key (Some raw) = VNum n)
   <-> numeric_head (comma_to_period (strip raw)) = true)
  /\ (numeric_head (comma_to_period (strip raw)) = false ->
      normalize key (Some raw) = VStr raw).
Proof.
  intros Hk Hraw. unfold normalize.
  rewrite Hk, (NormalizerFacts.truthy_nonempty raw Hraw). cbn [andb or_empty].
  destruct (parseFloat_kept (comma_to_period (strip raw)))
    as [[Hh ->] | (Hh & m & e & _ & _ & ->)].
  - apply all_kept_comma_to_period, all_kept_strip.
  - cbn [isNaN]. rewrite Hh. split; [|reflexivity].
    split; [intros [n H]; discriminate | discriminate].
  - rewrite Hh. split; [|discriminate].
    split; [reflexivity|]. intros _. destruct (overflows m e); cbn [isNaN]; eauto.
Qed.

Lemma price_is_number_iff_witness :
  (exists n, normalize "price" (Some "from ,50 $") = VNum n)
  /\ normalize "price" (Some "N/A .,50") = VStr "N/A .,50".
Proof.
  split.
  - apply (proj1 (price_is_number_iff "price" "from ,50 $" eq_refl ltac:(discriminate))).
    reflexivity.
  - apply (proj2 (price_is_number_iff "price" "N/A .,50" eq_refl ltac:(discriminate))).
    reflexivity.
Defined.

End NormalizerShape.

(** ** The extract loop *)

Module ExtractionFacts.

Local Arguments startsWith : simpl never.
Local Arguments trim : simpl never.
Local Arguments truthy : simpl never.
Local Arguments nonempty : simpl never.

Lemma advance_nothing r : advance r [] 0 = r.
Proof. destruct r. unfold advance. cbn. now rewrite app_nil_r, Nat.add_0_r. Qed.

Lemma advance_advance r e1 n1 e2 n2 :
  advance (advance r e1 n1) e2 n2 = advance r (e1 ++ e2) (n1 + n2).
Proof. unfold advance. cbn. now rewrite app_assoc, Nat.add_assoc. Qed.

(** Candidates that match nothing are queried and passed over. *)
Lemma try_candidates_absent env pre : forall rest value r,
  (forall i s, pre !! i = Some s -> query env (queries r + i) s = Resolved None) ->
  try_candidates env (pre ++ rest) value r
  = try_candidates env rest value (advance r (List.map EQuery pre) (length pre)).
Proof.
  induction pre as [|s0 pre IH]; intros rest value r Habs.
  - cbn [app List.map length]. now rewrite advance_nothing.
  - cbn [app try_candidates]. unfold bind at 1, next_query. unfold bind at 1, emit.
    unfold bind at 1, await. cbn [store log queries].
    pose proof (Habs 0 s0 eq_refl) as H0. rewrite Nat.add_0_r in H0. rewrite H0.
    rewrite IH.
    + f_equal. unfold advance. cbn [store log queries List.map length].
      rewrite <- app_assoc. f_equal. lia.
    + intros i s Hi. cbn [queries]. specialize (Habs (S i) s Hi).
      now rewrite Nat.add_succ_r in Habs.
Qed.

(** The first candidate whose element gives a truthy value ends the loop. *)
Lemma try_candidates_hit env sel post value r el v :
  query env (queries r) sel = Resolved (Some el) ->
  read_value sel el = Resolved v ->
  truthy v = true ->
  try_candidates env (sel :: post) value r
  = (Resolved v, advance r [EQuery sel; read_event sel] 1).
Proof.
  intros Hq Hread Ht. cbn [try_candidates].
  unfold bind at 1, next_query. unfold bind at 1, emit. unfold bind at 1, await.
  cbn [store log queries]. rewrite Hq.
  unfold read_value, read_event in *. unfold advance.
  destruct (startsWith "meta[" sel).
  - unfold bind, emit, await, ret. cbn [store log queries]. rewrite Hread, Ht.
    rewrite <- app_assoc, Nat.add_1_r. reflexivity.
  - unfold bind, emit, await, ret. cbn [store log queries].
    destruct (textContent el) as [t|e]; [|discriminate Hread].
    injection Hread as <-.
    assert (E : Some (match t with
                      | Some s => if nonempty (trim s) then trim s else EmptyString
                      | None => EmptyString
                      end)
                = Some (match t with Some s => trim s | None => EmptyString end)).
    { destruct t as [s|]; [|reflexivity]. now destruct (trim s). }
    rewrite E, Ht. rewrite <- app_assoc, Nat.add_1_r. reflexivity.
Qed.

(** X6: first match wins.  When the candidates before [sel] match nothing
    and the element of [sel] gives a non-empty value, that value is the
    field's text, whatever [value] held before; the page was asked once for
    each of these candidates and never for the ones after [sel]. *)
Theorem first_match_wins env (pre : list string) sel post value r el v :
  (forall i s, pre !! i = Some s -> query env (queries r + i) s = Resolved None) ->
  query env (queries r + length pre) sel = Resolved (Some el) ->
  read_value sel el = Resolved v ->
  truthy v = true ->
  try_candidates env (pre ++ sel :: post) value r
  = (Resolved v,
     {| store := store r;
        log := log r ++ List.map EQuery pre ++ [EQuery sel; read_event sel];
        queries := queries r + (length pre + 1) |}).
Proof.
  intros Habs Hq Hread Ht. rewrite (try_candidates_absent env pre _ _ _ Habs).
  rewrite (try_candidates_hit env sel post value
             (advance r (List.map EQuery pre) (length pre)) el v Hq Hread Ht).
  now rewrite advance_advance.
Qed.

Lemma first_match_wins_witness :
  try_candidates (amazon 0)
    ["#missing"; "#corePrice_feature_div .a-offscreen"; "#productTitle"]
    (Some EmptyString) (start initial_store)
  = (Resolved (Some "$1,234.56"),
     {| store := initial_store;
        log := [EQuery "#missing"; EQuery "#corePrice_feature_div .a-offscreen";
                ETextContent];
        queries := 2 |}).
Proof.
  apply (first_match_wins (amazon 0) ["#missing"]
           "#corePrice_feature_div .a-offscreen" ["#productTitle"]
           (Some EmptyString) (start initial_store)
           (text_element " $1,234.56 ") (Some "$1,234.56")).
  - intros [|i] s Hs; [injection Hs as <-; reflexivity | discriminate Hs].
  - reflexivity.
  - reflexivity.
  - reflexivity.
Defined.

(** X7: a field whose candidates all match nothing (in particular a field
    with no entry in the catalog, for which the page is not asked at all)
    is stored as the empty string, and the loop goes on with the next
    field. *)
Theorem unmatched_field_is_empty env key rest out r :
  obj_get selectors key <> FromPrototype ->
  (forall i s, chain_of key !! i = Some s ->
               query env (queries r + i) s = Resolved None) ->
  extract_fields env (key :: rest) out r
  = extract_fields env rest (<[key := VStr EmptyString]> out)
      {| store := store r;
         log := log r ++ List.map EQuery (chain_of key);
         queries := queries r + length (chain_of key) |}.
Proof.
  intros Hproto Habs. cbn [extract_fields].
  assert (Hloop : try_candidates env (chain_of key) (Some EmptyString) r
                  = (Resolved (Some EmptyString),
                     advance r (List.map EQuery (chain_of key)) (length (chain_of key)))).
  { rewrite <- (app_nil_r (chain_of key)) at 1.
    now rewrite (try_candidates_absent env (chain_of key) [] _ _ Habs). }
  assert (Hset : obj_set out key (normalize key (Some EmptyString))
                 = <[key := VStr EmptyString]> out).
  { rewrite (obj_set_proper _ _ _ Hproto). unfold normalize.
    now rewrite andb_false_r. }
  unfold chain_of in *. destruct (obj_get selectors key) as [cands| |];
    [|congruence|]; unfold bind; rewrite Hloop, Hset; reflexivity.
Qed.

Lemma unmatched_field_is_empty_witness :
  extract_fields (amazon 0) ["stock"; "rating"] ∅ (start initial_store)
  = (Resolved (<["rating" := VStr EmptyString]> (<["stock" := VStr EmptyString]> ∅)),
     {| store := initial_store;
        log := [EQuery "#acrPopover .a-icon-alt";
                EQuery "span[data-hook='rating-out-of-text']"];
        queries := 2 |}).
Proof.
  rewrite (unmatched_field_is_empty (amazon 0) "stock").
  - rewrite (unmatched_field_is_empty (amazon 0) "rating").
    + reflexivity.
    + discriminate.
    + intros i s Hs. vm_compute in Hs.
      destruct i as [|[|i]]; [injection Hs as <-..|discriminate Hs]; reflexivity.
  - discriminate.
  - intros i s Hs. vm_compute in Hs. destruct i; discriminate Hs.
Defined.

End ExtractionFacts.

(** ** Answers of the handler *)

Module AnswerFacts.

Import SessionFacts.

(** What [on_miss] resolves with is a 200 answer with a payload. *)
Lemma on_miss_resolved env u key wanted r resp r' :
  on_miss env u key wanted r = (Resolved resp, r') ->
  status resp = 200 /\ exists p, json resp = JPayload p.
Proof.
  unfold on_miss. destruct (url_hostname env u) as [h|]; [|discriminate].
  assert (Hb : forall r0, browser_path env u key wanted r0 = (Resolved resp, r') ->
                          status resp = 200 /\ exists p, json resp = JPayload p).
  { intros r0 H. apply browser_path_run in H.
    destruct H as (out & evs & -> & _). split; [reflexivity | eauto]. }
  destruct (fast_path_guard h wanted); [|apply Hb].
  unfold bind at 1, fetchCostcoMeta. unfold bind at 1, emit, ret.
  destruct (fetched_meta env u) as [m|]; [|apply Hb].
  unfold static_answer, bind, cache_set, get_store, put_store, ret.
  intros [= <- _]. split; [reflexivity | eauto].
Qed.

(** The ways a request can be answered. *)
Lemma scrape_answers env req s resp s' lg :
  scrape env req s = (resp, s', lg) ->
  (~ valid req /\ resp = refused /\ s' = s /\ lg = [])
  \/ (valid req /\ status resp = 200 /\ exists p, json resp = JPayload p)
  \/ (valid req /\ status resp = 500 /\ cache s' = cache s
      /\ exists message, json resp = JError message /\ message <> EmptyString).
Proof.
  intros H. destruct (valid_dec req) as [Hv|Hv].
  2:{ rewrite (scrape_refused _ _ _ Hv) in H. injection H as <- <- <-. now left. }
  right. rewrite (scrape_valid _ _ _ Hv) in H.
  destruct (fresh_hit env s (key_of req)) as [hit|].
  { injection H as <- <- <-. left. split; [exact Hv|]. split; [reflexivity | cbn; eauto]. }
  destruct (on_miss env (or_empty (url req)) (key_of req)
              (wanted_of (fields req)) (start s)) as [[resp0|message] r] eqn:Hm.
  - apply on_miss_resolved in Hm. cbn in H. injection H as <- <- <-. now left.
  - pose proof Hm as Hs. apply (f_equal settle) in Hs.
    apply on_miss_settles in Hs. destruct Hs as [_ Hs].
    cbn in H. injection H as <- <- <-. right. split; [exact Hv|].
    split; [reflexivity|]. split.
    + inversion Hs; subst; assumption.
    + eexists. split; [reflexivity|]. destruct message; discriminate.
Qed.

(** X8: the handler answers 400, 200 or 500 and nothing else; 400 exactly
    when the url is missing or empty or no field name is left after line
    57, and then nothing was touched: no fetch, no browser call, the store
    as it was. *)
Theorem status_cases env req s resp s' lg :
  scrape env req s = (resp, s', lg) ->
  (status resp = 400 \/ status resp = 200 \/ status resp = 500)
  /\ (status resp = 400 <-> ~ valid req)
  /\ (status resp = 400 -> resp = refused /\ s' = s /\ lg = []).
Proof.
  intros H. apply scrape_answers in H.
  destruct H as [(Hv & -> & -> & ->) | [(Hv & H200 & _) | (Hv & H500 & _)]].
  - cbn. tauto.
  - rewrite H200. split; [tauto|]. split; [split; [discriminate | tauto] | discriminate].
  - rewrite H500. split; [tauto|]. split; [split; [discriminate | tauto] | discriminate].
Qed.

Lemma status_cases_witness :
  let x := scrape (amazon 0) {| url := None; fields := Some "price" |} initial_store in
  x = (refused, initial_store, []).
Proof.
  intros x.
  destruct (status_cases (amazon 0) {| url := None; fields := Some "price" |}
              initial_store x.1.1 x.1.2 x.2) as (_ & _ & H).
  - subst x. now destruct (scrape _ _ _) as [[? ?] ?].
  - destruct H as (H1 & H2 & H3); [reflexivity|].
    subst x. destruct (scrape _ _ _) as [[? ?] ?]. cbn in *. congruence.
Defined.

(** X9: only a 200 answer is ever stored.  A request answered 400 or 500
    leaves the whole cache as it was, and no request touches a binding
    other than the one of its own key. *)
Theorem failures_leave_cache env req s resp s' lg :
  scrape env req s = (resp, s', lg) ->
  (status resp <> 200 -> cache s' = cache s)
  /\ (forall k, k <> key_of req -> cache s' !! k = cache s !! k).
Proof.
  intros H. destruct (valid_dec req) as [Hv|Hv].
  2:{ rewrite (scrape_refused _ _ _ Hv) in H. injection H as <- <- <-. auto. }
  rewrite (scrape_valid _ _ _ Hv) in H.
  destruct (fresh_hit env s (key_of req)) as [hit|].
  { injection H as <- <- <-. auto. }
  apply on_miss_settles in H. destruct H as [_ H].
  destruct H as [message s' lg Hc | h m Hh Hg Hm | out s' evs Hout Hc Hgo Hn Hcl].
  - split; [auto | intros k _; now rewrite Hc].
  - split; [intros Hne; exfalso; apply Hne; reflexivity|].
    intros k Hk. unfold store_cache_set. cbn [cache].
    apply lookup_insert_ne. congruence.
  - split; [intros Hne; exfalso; apply Hne; reflexivity|].
    intros k Hk. rewrite Hc. apply lookup_insert_ne. congruence.
Qed.

Lemma failures_leave_cache_witness :
  let first := scrape (amazon 0) (request amazon_url "price") initial_store in
  let second := scrape amazon_timeout (request amazon_url "title") first.1.2 in
  cache second.1.2 = cache first.1.2.
Proof.
  intros first second.
  destruct (failures_leave_cache amazon_timeout (request amazon_url "title")
              first.1.2 second.1.1 second.1.2 second.2) as [H _].
  - subst second.
    now destruct (scrape amazon_timeout (request amazon_url "title") first.1.2)
      as [[? ?] ?].
  - apply H. vm_compute. discriminate.
Defined.





(** X12: whatever requests the process serves one after the other, the
    store has seen at most one launch, and when there was one the promise it
    keeps is the one of that launch. *)
Theorem serve_keeps_one_browser (reqs : list (Env * Request)) :
  launched_at_most_once (serve reqs initial_store)
  /\ launches (serve reqs initial_store) <= 1.
Proof.
  destruct (serve_store_steps reqs initial_store) as [acts ->].
  destruct (perform_all_invariant acts initial_store) as (Hinv & _);
    [left; split; reflexivity|].
  split; [exact Hinv|]. destruct Hinv as [[_ ->] | (p & _ & -> & _)]; lia.
Qed.

End AnswerFacts.

(** ** Contexts *)

Module ContextFacts.

Lemma close_events_app l1 l2 :
  close_events (l1 ++ l2) = close_events l1 + close_events l2.
Proof. unfold close_events. now rewrite List.filter_app, List.length_app. Qed.

Lemma close_events_page_reads l :
  forallb is_page_read l = true -> close_events l = 0.
Proof.
  induction l as [|e l IH]; intros H; [reflexivity|].
  cbn in H. apply andb_prop in H. destruct H as [H1 H2].
  change (e :: l) with ([e] ++ l). rewrite close_events_app, (IH H2).
  destruct e; cbn in *; congruence.
Qed.

Lemma close_events_In c l : In (EClose c) l -> 1 <= close_events l.
Proof.
  induction l as [|e l IH]; intros H; [destruct H|].
  change (e :: l) with ([e] ++ l). rewrite close_events_app.
  destruct H as [->|H]; [cbn; lia | specialize (IH H); lia].
Qed.

Lemma closes_own_facts c evs :
  closes_own c evs ->
  close_events evs <= 1
  /\ forall c', In (EClose c') evs -> c' = c /\ In (ENewContext c) evs.
Proof.
  intros [H0 | (before & -> & H0 & Hin)].
  - split; [lia|]. intros c' Hc'. apply close_events_In in Hc'. lia.
  - split; [rewrite close_events_app, H0; cbn; lia|].
    intros c' Hc'. apply in_app_or in Hc'. destruct Hc' as [Hc'|[[= <-]|[]]].
    + apply close_events_In in Hc'. lia.
    + split; [reflexivity | apply in_or_app; now left].
Qed.

Ltac unclosed_run H :=
  inversion H; subst; clear H; cbn;
  eexists; split; [rewrite <- ?app_assoc; cbn; reflexivity | left; reflexivity].

Ltac await_unclosed H x := destruct x; cbn in H; [|unclosed_run H].

Ltac session_unclosed H env u :=
  await_unclosed H (newContext env); await_unclosed H (newPage env);
  await_unclosed H (route env); await_unclosed H (setExtraHTTPHeaders env);
  await_unclosed H (goto env u); await_unclosed H (waitForTimeout env).

Ltac session_closes H launch_evs c u :=
  let out := fresh "out" in
  let r2 := fresh "r2" in
  let Hex := fresh "Hex" in
  let Hst := fresh "Hst" in
  let qevs := fresh "qevs" in
  let Hlog := fresh "Hlog" in
  let Hq := fresh "Hq" in
  let Hout := fresh "Hout" in
  match type of H with
  | (let (_, _) := ?x in _) = _ => destruct x as [[out|?] r2] eqn:Hex
  end;
  apply extract_fields_run in Hex;
  destruct Hex as [[Hst (qevs & Hlog & Hq)] Hout];
  cbn in Hst, Hlog;
  [destruct (close _)|];
  inversion H; subst; clear H; cbn; rewrite Hlog;
  [ exists ((launch_evs ++ session_prefix c u ++ qevs) ++ [EClose c]);
    split; [cbn; rewrite <- !app_assoc; reflexivity|];
    right; exists (launch_evs ++ session_prefix c u ++ qevs);
    split; [reflexivity|];
    split; [rewrite !close_events_app, (close_events_page_reads _ Hq); reflexivity|];
    apply in_or_app; right; cbn; tauto
  | exists ((launch_evs ++ session_prefix c u ++ qevs) ++ [EClose c]);
    split; [cbn; rewrite <- !app_assoc; reflexivity|];
    right; exists (launch_evs ++ session_prefix c u ++ qevs);
    split; [reflexivity|];
    split; [rewrite !close_events_app, (close_events_page_reads _ Hq); reflexivity|];
    apply in_or_app; right; cbn; tauto
  | exists (launch_evs ++ session_prefix c u ++ qevs);
    split; [cbn; rewrite <- !app_assoc; reflexivity|];
    left; rewrite !close_events_app, (close_events_page_reads _ Hq); reflexivity ].

Lemma browser_path_closes env u key wanted r o r' :
  browser_path env u key wanted r = (o, r') ->
  exists evs, log r' = log r ++ evs /\ closes_own (contexts (store r)) evs.
Proof.
  unfold closes_own.
  unfold browser_path, bind, getBrowser, getBrowser_step, await_browser,
    open_context, cache_set, emit, await, get_store, put_store, ret, throw.
  intros H. cbn in H.
  destruct (browserPromise (store r)) as [p|]; cbn in H;
    [destruct (settles p) | destruct (launch env)]; cbn in H;
    try (unclosed_run H); session_unclosed H env u.
  - session_closes H (@nil event) (contexts (store r)) u.
  - session_closes H [ELaunch (launches (store r))] (contexts (store r)) u.
Qed.

Lemma closes_own_after_fetch c u evs :
  closes_own c evs -> closes_own c (EFetch u :: evs).
Proof.
  intros [H0 | (before & -> & H0 & Hin)].
  - left. change (EFetch u :: evs) with ([EFetch u] ++ evs).
    now rewrite close_events_app, H0.
  - right. exists (EFetch u :: before). split; [reflexivity|].
    split; [|now right]. change (EFetch u :: before) with ([EFetch u] ++ before).
    now rewrite close_events_app, H0.
Qed.

Lemma scrape_closes_own env req s resp s' lg :
  scrape env req s = (resp, s', lg) -> closes_own (contexts s) lg.
Proof.
  intros H. destruct (valid_dec req) as [Hv|Hv].
  2:{ rewrite (scrape_refused _ _ _ Hv) in H. injection H as <- <- <-. now left. }
  rewrite (scrape_valid _ _ _ Hv) in H.
  destruct (fresh_hit env s (key_of req)) as [hit|].
  { injection H as <- <- <-. now left. }
  unfold on_miss in H. destruct (url_hostname env _) as [h|].
  2:{ cbn in H. injection H as <- <- <-. now left. }
  assert (Hb : forall pre x,
             settle (browser_path env (or_empty (url req)) (key_of req)
                       (wanted_of (fields req))
                       {| store := s; log := pre; queries := 0 |}) = x ->
             exists evs, x.2 = pre ++ evs /\ closes_own (contexts s) evs).
  { intros pre x <-. destruct (browser_path _ _ _ _ _) as [o r'] eqn:Hbp.
    apply browser_path_closes in Hbp. destruct o; exact Hbp. }
  destruct (fast_path_guard h _).
  - unfold bind at 1, fetchCostcoMeta in H. unfold bind at 1, emit, ret in H.
    cbn [store log queries start app] in H.
    destruct (fetched_meta env _) as [m|].
    + unfold static_answer, settle, bind, cache_set, get_store, put_store, ret in H.
      cbn [store log queries] in H. injection H as <- <- <-. now left.
    + apply Hb in H. destruct H as (evs & E & Hown). cbn in E. subst lg.
      now apply closes_own_after_fetch.
  - apply Hb in H. destruct H as (evs & E & Hown). cbn in E. now subst lg.
Qed.

(** X13: a request never closes a context twice, and the only context it
    can close is the one it opened itself. *)
Theorem closes_only_its_own_context env req s resp s' lg :
  scrape env req s = (resp, s', lg) ->
  close_events lg <= 1
  /\ forall c, In (EClose c) lg -> c = contexts s /\ In (ENewContext c) lg.
Proof.
  intros H.
  destruct (closes_own_facts _ _ (scrape_closes_own _ _ _ _ _ _ H)) as [H1 H2].
  split; [exact H1|]. intros c Hc. destruct (H2 c Hc) as [-> Hin]. auto.
Qed.

Lemma closes_only_its_own_context_witness :
  let first := scrape (amazon 0) (request amazon_url "price") initial_store in
  let second := scrape (amazon 0) (request amazon_url "title") first.1.2 in
  close_events second.2 <= 1
  /\ In (EClose 1) second.2
  /\ ~ In (EClose 0) second.2.
Proof.
  intros first second.
  destruct (closes_only_its_own_context (amazon 0) (request amazon_url "title")
              first.1.2 second.1.1 second.1.2 second.2) as [H1 H2].
  - subst second.
    now destruct (scrape (amazon 0) (request amazon_url "title") first.1.2)
      as [[? ?] ?].
  - split; [exact H1|]. split; [vm_compute; tauto|].
    intros H0. apply H2 in H0. destruct H0 as [H0 _].
    vm_compute in H0. discriminate H0.
Defined.

End ContextFacts.

(** ** The CSV endpoint *)

Module CsvFacts.

Import Csv AnswerFacts.

Lemma read_in_field s : forall cur done rest,
  read_fields InField cur done (escape s ++ String dquote rest)
  = read_fields QuoteSeen (rev_onto s cur) done rest.
Proof.
  induction s as [|c r IH]; intros cur done rest.
  - reflexivity.
  - cbn [escape rev_onto]. destruct (Ascii.eqb c dquote) eqn:Hc.
    + apply Ascii.eqb_eq in Hc. subst c. rewrite !append_cons.
      cbn [read_fields]. rewrite Ascii.eqb_refl. apply IH.
    + rewrite append_cons. cbn [read_fields]. rewrite Hc. apply IH.
Qed.

Lemma read_cell s done rest :
  read_fields FieldStart EmptyString done (cell s ++ rest)
  = read_fields QuoteSeen (reverse s) done rest
  /\ read_fields LineStart EmptyString done (cell s ++ rest)
     = read_fields QuoteSeen (reverse s) done rest.
Proof.
  unfold cell. rewrite append_cons, append_assoc, append_cons.
  cbn [read_fields]. rewrite Ascii.eqb_refl.
  change (EmptyString ++ rest)%string with rest.
  rewrite read_in_field. split; reflexivity.
Qed.

Lemma join_cons x y l :
  join_comma (x :: y :: l) = (x ++ String "," (join_comma (y :: l)))%string.
Proof. reflexivity. Qed.

Lemma read_cells ss : forall done,
  ss <> [] ->
  read_fields FieldStart EmptyString done (join_comma (List.map cell ss))
  = Some (List.rev done ++ ss)
  /\ read_fields LineStart EmptyString done (join_comma (List.map cell ss))
     = Some (List.rev done ++ ss).
Proof.
  induction ss as [|s ss IH]; intros done Hne; [congruence|].
  destruct ss as [|s' ss'].
  - cbn [List.map join_comma String.concat].
    rewrite <- (append_empty_r (cell s)).
    destruct (read_cell s done EmptyString) as [-> ->].
    cbn [read_fields]. rewrite reverse_involutive. cbn [List.rev]. auto.
  - cbn [List.map]. rewrite join_cons.
    destruct (read_cell s done (String "," (join_comma (cell s' :: List.map cell ss'))))
      as [-> ->].
    cbn [read_fields]. change (Ascii.eqb "," dquote) with false.
    rewrite Ascii.eqb_refl, reverse_involutive. cbv iota.
    destruct (IH (s :: done)) as [E _]; [discriminate|].
    cbn [List.map] in E. rewrite E. cbn [List.rev]. rewrite <- app_assoc. auto.
Qed.

Lemma line_reads_back (show_number : number -> string) (arr : list parsed) :
  read_line (csv_line show_number arr)
  = Some (List.map (render show_number) arr).
Proof.
  unfold read_line, csv_line. destruct arr as [|v arr]; [reflexivity|].
  rewrite <- (List.map_map (render show_number) cell).
  destruct (read_cells (List.map (render show_number) (v :: arr)) []) as [_ E];
    [discriminate|].
  exact E.
Qed.

(** X14: a line of quoted fields reads back, field by field, as the texts
    it was made of: commas and double quotes inside a value do not break or
    shift the fields. *)
Theorem csv_line_round_trip (show_number : number -> string) (arr : list parsed) :
  read_line (csv_line show_number arr)
  = Some (List.map (render show_number) arr).
Proof. apply line_reads_back. Qed.

(** X15: two lists of values that render differently never give the same
    line. *)
Theorem csv_line_injective (show_number : number -> string) (a1 a2 : list parsed) :
  csv_line show_number a1 = csv_line show_number a2 ->
  List.map (render show_number) a1 = List.map (render show_number) a2.
Proof.
  intros H. apply (f_equal read_line) in H.
  rewrite !line_reads_back in H. now injection H.
Qed.

Lemma csv_line_injective_witness :
  csv_line (fun _ => "0") [PStr "a,b"; PNull]
  <> csv_line (fun _ => "0") [PStr "a"; PStr "b"; PNull].
Proof.
  intros H. apply csv_line_injective in H. discriminate H.
Defined.

(** X16: /values never answers with an error.  The content type is always
    text/csv, and the body is empty whenever the call of /api/scrape fails
    or its answer is not a 200: a missing url or field list, a page that
    cannot be scraped. *)
Theorem values_route_is_silent (show_number : number -> string) env loopback req s :
  let out := values_route show_number env loopback req s in
  content_type out.1.1 = "text/csv"
  /\ (forall e, loopback = Rejected e ->
        sent out.1.1 = EmptyString /\ out.1.2 = s /\ out.2 = [])
  /\ (status (scrape env (inner_request req) s).1.1 <> 200 ->
        sent out.1.1 = EmptyString)
  /\ (~ valid req -> sent out.1.1 = EmptyString).
Proof.
  intros out. subst out. unfold values_route. fold (inner_request req).
  assert (Hbad : status (scrape env (inner_request req) s).1.1 <> 200 ->
                 exists message, json (scrape env (inner_request req) s).1.1
                                 = JError message).
  { intros Hne. destruct (scrape env (inner_request req) s) as [[resp s'] lg] eqn:E.
    apply scrape_answers in E. cbn [fst] in *.
    destruct E as [(_ & -> & _) | [(_ & H200 & _) | (_ & _ & _ & m & -> & _)]];
      [eexists; reflexivity | contradiction | eauto]. }
  assert (Hinv : ~ valid req -> status (scrape env (inner_request req) s).1.1 <> 200).
  { intros Hv. rewrite scrape_refused; [discriminate|].
    intros [Hu Hw]. apply Hv. split.
    - cbn in Hu. destruct (url req) as [u|]; [exact Hu | discriminate Hu].
    - cbn in Hw. unfold wanted_of in *. now destruct (fields req). }
  destruct loopback as [[]|e].
  - destruct (scrape env (inner_request req) s) as [[resp s'] lg]. cbn [fst snd] in *.
    split; [reflexivity|]. split; [discriminate|].
    assert (Hempty : status resp <> 200 -> csv_line show_number (values_of_body (json resp)) = EmptyString).
    { intros Hne. destruct (Hbad Hne) as [m ->]. reflexivity. }
    split; [exact Hempty | intros Hv; apply Hempty, Hinv, Hv].
  - cbn. auto.
Qed.

(** X17: when /api/scrape answers with a payload, /values sends its
    [values] in order, one quoted field each: a string as it is, a finite
    number as its decimal text, and an empty field for a slot that JSON
    writes as [null]: an infinity (a price too large for a double), NaN or
    an inherited function. *)
Theorem values_route_sends_values (show_number : number -> string) env req s
    resp s' lg p :
  scrape env (inner_request req) s = (resp, s', lg) ->
  json resp = JPayload p ->
  let out := values_route show_number env (Resolved tt) req s in
  out.1.2 = s' /\ out.2 = lg
  /\ read_line (sent out.1.1)
     = Some (List.map (fun v => render show_number (through_json v)) (values p)).
Proof.
  intros H Hp out. subst out. unfold values_route. fold (inner_request req).
  rewrite H. cbn [fst snd sent]. split; [reflexivity|]. split; [reflexivity|].
  rewrite Hp. cbn [values_of_body]. rewrite line_reads_back.
  now rewrite List.map_map.
Qed.

Lemma values_route_is_silent_witness :
  (values_route (fun _ => "0") (amazon 0) (Resolved tt)
     {| url := None; fields := Some "price" |} initial_store).1.1
  = {| content_type := "text/csv"; sent := EmptyString |}.
Proof.
  set (req := {| url := None; fields := Some "price" |}).
  destruct (values_route_is_silent (fun _ => "0") (amazon 0) (Resolved tt) req
              initial_store) as (H1 & _ & _ & H2).
  specialize (H2 ltac:(intros [Hu _]; discriminate Hu)).
  destruct (values_route _ _ _ _ _) as [[[ct body] s'] lg]. cbn in *. congruence.
Defined.

Lemma values_route_sends_values_witness :
  let req := request amazon_url "title,price,stock" in
  let huge := priced (repeat_char 309 "9") in
  read_line (sent (values_route (fun _ => "1.234") (amazon 0) (Resolved tt) req
                     initial_store).1.1)
  = Some ["Espresso machine"; "1.234"; ""]
  /\ read_line (sent (values_route (fun _ => "1.234") huge (Resolved tt) req
                        initial_store).1.1)
     = Some [""; ""; ""].
Proof.
  intros req huge. split.
  - set (x := scrape (amazon 0) (inner_request req) initial_store).
    assert (Hp : exists p, json x.1.1 = JPayload p
                   /\ values p = [VStr "Espresso machine";
                                  VNum (Decimal false 1234 (-3)); VStr EmptyString]).
    { eexists. split; vm_compute; reflexivity. }
    destruct Hp as (p & Hj & Hv).
    destruct (values_route_sends_values (fun _ => "1.234") (amazon 0) req initial_store
                x.1.1 x.1.2 x.2 p) as (_ & _ & H).
    + subst x. now destruct (scrape (amazon 0) (inner_request req) initial_store)
        as [[? ?] ?].
    + exact Hj.
    + rewrite H, Hv. reflexivity.
  - set (x := scrape huge (inner_request req) initial_store).
    assert (Hp : exists p, json x.1.1 = JPayload p
                   /\ values p = [VStr EmptyString; VNum (Infinity false);
                                  VStr EmptyString]).
    { eexists. split; vm_compute; reflexivity. }
    destruct Hp as (p & Hj & Hv).
    destruct (values_route_sends_values (fun _ => "1.234") huge req initial_store
                x.1.1 x.1.2 x.2 p) as (_ & _ & H).
    + subst x. now destruct (scrape huge (inner_request req) initial_store)
        as [[? ?] ?].
    + exact Hj.
    + rewrite H, Hv. reflexivity.
Defined.

End CsvFacts.

(** ** The static fetch extractor *)

Module MetaFacts.
Import Meta.

Lemma span_unquoted_spec s :
  no_quote (fst (span_unquoted s)) = true
  /\ s = (fst (span_unquoted s) ++ snd (span_unquoted s))%string.
Proof.
  induction s as [|c r [IH1 IH2]]; [split; reflexivity|]. cbn [span_unquoted].
  destruct (is_quote c) eqn:Hc; [split; reflexivity|].
  destruct (span_unquoted r) as [v rest]. cbn [fst snd] in *.
  split; [cbn; now rewrite Hc, IH1 | now rewrite append_cons, <- IH2].
Qed.

Lemma content_attr_sound s v :
  content_attr s = Some v -> v <> EmptyString /\ no_quote v = true.
Proof.
  unfold content_attr. destruct (literal_ci "content=" s) as [r|]; [|discriminate].
  destruct (quote r) as [r'|]; [|discriminate].
  pose proof (span_unquoted_spec r') as [Hq _].
  destruct (span_unquoted r') as [w rest]. cbn [fst] in Hq.
  destruct w; cbn [nonempty andb]; [discriminate|].
  destruct (nonempty rest); [|discriminate]. intros [= <-]. split; [discriminate | exact Hq].
Qed.

Lemma skip_then_content_sound s v :
  skip_then_content s = Some v -> v <> EmptyString /\ no_quote v = true.
Proof.
  induction s as [|c r IH]; cbn [skip_then_content]; [apply content_attr_sound|].
  destruct (Ascii.eqb c ">"); [apply content_attr_sound|].
  destruct (skip_then_content r) as [w|]; [intros [= <-]; now apply IH|].
  apply content_attr_sound.
Qed.

Lemma match_here_sound name s v :
  match_here name s = Some v -> v <> EmptyString /\ no_quote v = true.
Proof.
  unfold match_here.
  destruct (literal_ci "property=" s) as [r1|]; [|discriminate].
  destruct (quote r1) as [r2|]; [|discriminate].
  destruct (literal_ci name r2) as [r3|]; [|discriminate].
  destruct (quote r3) as [r4|]; [|discriminate].
  apply skip_then_content_sound.
Qed.

Lemma search_sound name html v :
  search name html = Some v -> v <> EmptyString /\ no_quote v = true.
Proof.
  induction html as [|c r IH]; cbn [search].
  - destruct (match_here name EmptyString) as [w|] eqn:E; [|discriminate].
    intros [= <-]. exact (match_here_sound _ _ _ E).
  - destruct (match_here name (String c r)) as [w|] eqn:E; [|exact IH].
    intros [= <-]. exact (match_here_sound _ _ _ E).
Qed.

(** X18: what the static fetch extractor takes from a meta tag never holds
    a quote of either kind (the value is cut at the first one), and a match
    is never empty. *)
Theorem meta_content_has_no_quote (name html : string) :
  no_quote (meta_content name html) = true
  /\ (forall v, search name html = Some v -> v <> EmptyString).
Proof.
  split.
  - unfold meta_content. destruct (search name html) as [v|] eqn:E; [|reflexivity].
    now apply search_sound in E.
  - intros v E. now apply search_sound in E.
Qed.

Lemma literal_ci_refl lit rest : literal_ci lit (lit ++ rest) = Some rest.
Proof.
  induction lit as [|c lit IH]; [now destruct rest|].
  rewrite append_cons. cbn [literal_ci]. now rewrite Ascii.eqb_refl.
Qed.

Lemma span_unquoted_plain v q rest :
  no_quote v = true -> is_quote q = true ->
  span_unquoted (v ++ String q rest) = (v, String q rest).
Proof.
  intros Hv Hq. induction v as [|c v IH].
  - change (EmptyString ++ String q rest)%string with (String q rest).
    cbn [span_unquoted]. now rewrite Hq.
  - cbn [no_quote] in Hv. apply andb_prop in Hv. destruct Hv as [Hc Hv].
    apply negb_true_iff in Hc. rewrite append_cons. cbn [span_unquoted].
    now rewrite Hc, (IH Hv).
Qed.

Lemma literal_ci_cons a lit c s r :
  literal_ci (String a lit) (String c s) = Some r ->
  lower_char a = lower_char c /\ literal_ci lit s = Some r.
Proof.
  cbn [literal_ci]. destruct (Ascii.eqb_spec (lower_char a) (lower_char c));
    [auto | discriminate].
Qed.

(** A character that folds onto a lower-case letter is neither [>] nor
    [=]; one that folds onto [=] is [=]. *)
Lemma folds_onto (a c : ascii) :
  lower_char a = lower_char c ->
  In a ["c"; "o"; "n"; "t"; "e"; "="]%char ->
  (a <> "="%char -> Ascii.eqb c ">" = false /\ Ascii.eqb c "=" = false)
  /\ (a = "="%char -> c = "="%char).
Proof.
  intros H Ha. cbn in Ha.
  repeat (destruct Ha as [<-|Ha];
          [split; [intros _; split;
                   [destruct (Ascii.eqb_spec c ">"); [subst; discriminate H | reflexivity]
                   |destruct (Ascii.eqb_spec c "="); [subst; discriminate H | reflexivity]]
                  |discriminate]|]).
  destruct Ha as [<-|[]]. split; [congruence|]. intros _.
  destruct c as [[] [] [] [] [] [] [] []]; try discriminate H; reflexivity.
Qed.

Ltac letter H s :=
  let c := fresh "c" in
  let E := fresh "E" in
  let Hc := fresh "Hc" in
  destruct s as [|c s]; [discriminate H|];
  apply literal_ci_cons in H; destruct H as [E H];
  apply folds_onto in E; [|cbn; tauto];
  destruct E as [Hc _]; destruct (Hc ltac:(discriminate)) as [? ?]; clear Hc.

Lemma content_literal_loud s r :
  literal_ci "content=" s = Some r -> quiet s = false.
Proof.
  intros H. do 7 (letter H s).
  destruct s as [|c8 s]; [discriminate H|].
  apply literal_ci_cons in H. destruct H as [E _].
  apply folds_onto in E; [|cbn; tauto]. destruct E as [_ E]. rewrite (E eq_refl).
  cbn [quiet].
  repeat match goal with
         | E : Ascii.eqb ?c ">" = false |- context [Ascii.eqb ?c ">"] => rewrite E
         | E : Ascii.eqb ?c "=" = false |- context [Ascii.eqb ?c "="] => rewrite E
         end.
  reflexivity.
Qed.

Lemma content_attr_quiet s : quiet s = true -> content_attr s = None.
Proof.
  intros Hq. unfold content_attr.
  destruct (literal_ci "content=" s) as [r|] eqn:E; [|reflexivity].
  apply content_literal_loud in E. congruence.
Qed.

Lemma skip_then_content_quiet s : quiet s = true -> skip_then_content s = None.
Proof.
  induction s as [|c r IH]; intros Hq; [reflexivity|].
  cbn [skip_then_content]. rewrite (content_attr_quiet _ Hq).
  cbn [quiet] in Hq. destruct (Ascii.eqb c ">"); [reflexivity|].
  apply andb_prop in Hq. destruct Hq as [_ Hq]. now rewrite (IH Hq).
Qed.

Lemma plain_quiet v tl : plain v = true -> quiet tl = true -> quiet (v ++ tl) = true.
Proof.
  intros Hv Ht. induction v as [|c v IH]; [exact Ht|].
  cbn [plain] in Hv. apply andb_prop in Hv. destruct Hv as [Hc Hv].
  unfold plain_char in Hc. apply negb_true_iff in Hc.
  apply orb_false_elim in Hc. destruct Hc as [Hc H3].
  apply orb_false_elim in Hc. destruct Hc as [_ H2].
  rewrite append_cons. cbn [quiet]. now rewrite H3, H2, (IH Hv).
Qed.

Lemma plain_no_quote v : plain v = true -> no_quote v = true.
Proof.
  induction v as [|c v IH]; [reflexivity|]. cbn [plain no_quote].
  intros H. apply andb_prop in H. destruct H as [Hc Hv].
  unfold plain_char in Hc. apply negb_true_iff in Hc.
  apply orb_false_elim in Hc. destruct Hc as [Hc _].
  apply orb_false_elim in Hc. destruct Hc as [Hc _].
  now rewrite Hc, (IH Hv).
Qed.

Lemma content_attr_head a r :
  Ascii.eqb "c" (lower_char a) = false -> content_attr (String a r) = None.
Proof.
  intros H. unfold content_attr. cbn [literal_ci].
  change (lower_char "c") with "c"%char. now rewrite H.
Qed.

Lemma attribute_found v rest :
  v <> EmptyString -> plain v = true -> quiet rest = true ->
  skip_then_content (" content='" ++ v ++ String "'" rest) = Some v.
Proof.
  intros Hne Hv Hrest.
  assert (Hq : quiet (v ++ String "'" rest) = true)
    by (apply plain_quiet; [exact Hv | exact Hrest]).
  assert (Hspan := span_unquoted_plain v "'" rest (plain_no_quote _ Hv) eq_refl).
  set (t0 := (v ++ String "'" rest)%string) in *.
  assert (Hattr : content_attr ("content='" ++ t0) = Some v).
  { unfold content_attr.
    change ("content='" ++ t0)%string with ("content=" ++ String "'" t0)%string.
    rewrite (literal_ci_refl "content=" (String "'" t0)).
    cbn [quote]. change (is_quote "'") with true. cbv iota beta.
    rewrite Hspan. destruct v; [congruence | reflexivity]. }
  pose proof (skip_then_content_quiet _ Hq) as Hskip.
  fold t0. cbv [append] in Hattr |- *.
  cbn [skip_then_content Ascii.eqb Bool.eqb andb]. rewrite Hskip.
  rewrite !content_attr_head by reflexivity. now rewrite Hattr.
Qed.

Lemma tag_shape name v rest :
  (meta_tag name v ++ rest)%string
  = ("property=" ++ String "'" (name ++ String "'"
       (" content='" ++ v ++ String "'" rest)))%string.
Proof.
  unfold meta_tag. rewrite !append_assoc. reflexivity.
Qed.

Lemma tag_matches name v rest :
  v <> EmptyString -> plain v = true -> quiet rest = true ->
  match_here name (meta_tag name v ++ rest) = Some v.
Proof.
  intros Hne Hv Hrest. rewrite tag_shape. unfold match_here.
  rewrite (literal_ci_refl "property=").
  cbn [quote]. change (is_quote "'") with true. cbv iota.
  rewrite literal_ci_refl. cbn [quote]. change (is_quote "'") with true. cbv iota.
  now apply attribute_found.
Qed.

Lemma search_finds name s v :
  match_here name s = Some v -> forall pre, is_Some (search name (pre ++ s)).
Proof.
  intros H pre. induction pre as [|c pre IH].
  - change (EmptyString ++ s)%string with s. destruct s; cbn [search]; rewrite H; eauto.
  - rewrite append_cons. cbn [search].
    destruct (match_here name (String c (pre ++ s))); [eauto | exact IH].
Qed.

Lemma search_head name s v : match_here name s = Some v -> search name s = Some v.
Proof. intros H. destruct s; cbn [search]; now rewrite H. Qed.

(** X19: a meta tag with the wanted property, written with its two
    attributes next to each other and a value without quotes, equals signs
    or closing brackets, is found: wherever it stands in the document the
    extractor returns a non-empty text, and when the document starts with it
    the text is the value of the tag. *)
Theorem meta_tag_is_found (name v rest : string) :
  v <> EmptyString -> plain v = true -> quiet rest = true ->
  meta_content name (meta_tag name v ++ rest) = v
  /\ forall pre, meta_content name (pre ++ meta_tag name v ++ rest) <> EmptyString.
Proof.
  intros Hne Hv Hrest. pose proof (tag_matches name v rest Hne Hv Hrest) as Hm.
  split.
  - unfold meta_content. now rewrite (search_head _ _ _ Hm).
  - intros pre. unfold meta_content.
    destruct (search_finds _ _ _ Hm pre) as [w Hw]. rewrite Hw.
    now apply search_sound in Hw.
Qed.

Lemma meta_tag_is_found_witness :
  meta_content "og:title"
    ("property='og:title' content='Kirkland Coffee' /><meta charset='utf-8'>")
  = "Kirkland Coffee"
  /\ meta_content "product:price:amount" costco_html <> EmptyString.
Proof.
  split.
  - apply (meta_tag_is_found "og:title" "Kirkland Coffee"
             " /><meta charset='utf-8'>"); [discriminate | reflexivity | reflexivity].
  - apply (proj2 (meta_tag_is_found "product:price:amount" "19.99" "></head></html>"
                    ltac:(discriminate) eq_refl eq_refl)
             "<html><head><meta property='og:title' content='Kirkland Coffee'><meta ").
Defined.

End MetaFacts.

(** ** Page reads and the shape of an answer *)

Module PayloadFacts.

Import SessionFacts.

Local Arguments startsWith : simpl never.
Local Arguments trim : simpl never.
Local Arguments truthy : simpl never.
Local Arguments nonempty : simpl never.

(** *** What is asked of the page *)

Lemma asks_silent {A} (m : M A) :
  (forall r, exists o s n, m r = (o, {| store := s; log := log r; queries := n |})) ->
  asks [] m.
Proof.
  intros Hm r o r' H. destruct (Hm r) as (o0 & s & n & E). rewrite E in H.
  injection H as <- <-. exists []. cbn. now rewrite app_nil_r.
Qed.

Lemma asks_ret {A} (a : A) : asks [] (ret a).
Proof. apply asks_silent. intros [s l n]. now exists (Resolved a), s, n. Qed.

Lemma asks_throw {A} e : asks [] (@throw A e).
Proof. apply asks_silent. intros [s l n]. now exists (Rejected e), s, n. Qed.

Lemma asks_await {A} (x : outcome A) : asks [] (await x).
Proof. apply asks_silent. intros [s l n]. now exists x, s, n. Qed.

Lemma asks_get_store : asks [] get_store.
Proof. apply asks_silent. intros [s l n]. now exists (Resolved s), s, n. Qed.

Lemma asks_put_store s : asks [] (put_store s).
Proof. apply asks_silent. intros [s0 l n]. now exists (Resolved tt), s, n. Qed.

Lemma asks_next_query : asks [] next_query.
Proof. apply asks_silent. intros [s l n]. now exists (Resolved n), s, (S n). Qed.

Lemma asks_emit e : asks (queried [e]) (emit e).
Proof. intros r o r' [= <- <-]. exists [e]. split; reflexivity. Qed.

Lemma asks_bind {A B} l1 l2 (m : M A) (k : A -> M B) :
  asks l1 m -> (forall a, asks l2 (k a)) -> asks (l1 ++ l2) (bind m k).
Proof.
  intros Hm Hk r o r' H. unfold bind in H.
  destruct (m r) as [[a|e] r1] eqn:E.
  - destruct (Hm _ _ _ E) as (e1 & L1 & F1).
    destruct (Hk a _ _ _ H) as (e2 & L2 & F2).
    exists (e1 ++ e2). split; [now rewrite L2, L1, app_assoc|].
    unfold queried. rewrite omap_app. now apply sublist_app.
  - injection H as <- <-. destruct (Hm _ _ _ E) as (e1 & L1 & F1).
    exists e1. split; [exact L1|]. now apply sublist_inserts_r.
Qed.

(** A step that asks nothing, then the rest. *)
Lemma asks_then {A B} l (m : M A) (k : A -> M B) :
  asks [] m -> (forall a, asks l (k a)) -> asks l (bind m k).
Proof. intros Hm Hk. exact (asks_bind [] l m k Hm Hk). Qed.

Lemma asks_weaken {A} l1 l2 (m : M A) : sublist l1 l2 -> asks l1 m -> asks l2 m.
Proof.
  intros Hl Hm r o r' H. destruct (Hm _ _ _ H) as (evs & L & F).
  exists evs. split; [exact L|]. now transitivity l1.
Qed.

Lemma asks_getBrowser env : asks [] (getBrowser env).
Proof.
  intros r o r'. unfold getBrowser, getBrowser_step.
  destruct (browserPromise (store r)); intros [= <- <-]; cbn.
  - exists []. now rewrite app_nil_r.
  - eexists. split; reflexivity.
Qed.

Lemma asks_await_browser p : asks [] (await_browser p).
Proof. unfold await_browser. destruct (settles p); [apply asks_ret | apply asks_throw]. Qed.

Lemma asks_cache_set key e : asks [] (cache_set key e).
Proof.
  unfold cache_set. apply asks_then; [apply asks_get_store|].
  intros s. apply asks_put_store.
Qed.

Lemma asks_open_context env : asks [] (open_context env).
Proof.
  unfold open_context.
  apply asks_then; [apply asks_await|]. intros _.
  apply asks_then; [apply asks_get_store|]. intros s.
  apply asks_then; [apply asks_put_store|]. intros _.
  apply asks_then; [apply (asks_emit (ENewContext _))|]. intros _. apply asks_ret.
Qed.

(** The inner loop asks for its candidates in order, each at most once,
    and stops somewhere. *)
Lemma try_candidates_asks env cands : forall value,
  asks cands (try_candidates env cands value).
Proof.
  induction cands as [|sel rest IH]; intros value; [apply asks_ret|].
  cbn [try_candidates].
  apply asks_then; [apply asks_next_query|]. intros n.
  apply (asks_bind [sel] rest); [apply (asks_emit (EQuery sel))|]. intros _.
  apply asks_then; [apply asks_await|]. intros [el|]; [|apply IH].
  apply asks_then.
  - destruct (startsWith "meta[" sel).
    + apply asks_then; [apply (asks_emit EGetAttribute) | intros _; apply asks_await].
    + apply asks_then; [apply (asks_emit ETextContent)|]. intros _.
      apply asks_then; [apply asks_await | intros t; apply asks_ret].
  - intros v. destruct (truthy v); [|apply IH].
    eapply asks_weaken; [|apply asks_ret]. apply sublist_nil_l.
Qed.

(** The extract loop goes through the wanted fields in order. *)
Lemma extract_fields_asks env keys : forall out,
  asks (candidates_of keys) (extract_fields env keys out).
Proof.
  induction keys as [|key rest IH]; intros out; [apply asks_ret|].
  cbn [extract_fields candidates_of flat_map].
  fold (candidates_of rest).
  destruct (obj_get selectors key) as [cands| |].
  - apply asks_bind; [apply try_candidates_asks | intros v; apply IH].
  - eapply asks_weaken; [apply sublist_nil_l | apply asks_throw].
  - apply asks_then; [apply asks_ret | intros v; apply IH].
Qed.

Lemma browser_path_asks env u key wanted :
  asks (candidates_of wanted) (browser_path env u key wanted).
Proof.
  unfold browser_path.
  apply asks_then; [apply asks_getBrowser|]. intros p.
  apply asks_then; [apply asks_await_browser|]. intros b.
  apply asks_then; [apply asks_open_context|]. intros c.
  apply asks_then; [apply (asks_emit (ENewPage _))|]. intros _.
  apply asks_then; [apply asks_await|]. intros _.
  apply asks_then; [apply (asks_emit ERoute)|]. intros _.
  apply asks_then; [apply asks_await|]. intros _.
  apply asks_then; [apply (asks_emit ESetExtraHTTPHeaders)|]. intros _.
  apply asks_then; [apply asks_await|]. intros _.
  apply asks_then; [apply (asks_emit (EGoto _))|]. intros _.
  apply asks_then; [apply asks_await|]. intros _.
  apply asks_then; [apply (asks_emit EWaitForTimeout)|]. intros _.
  apply asks_then; [apply asks_await|]. intros _.
  rewrite <- (app_nil_r (candidates_of wanted)).
  apply asks_bind; [apply extract_fields_asks|]. intros out.
  apply asks_then; [apply (asks_emit (EClose _))|]. intros _.
  apply asks_then; [apply asks_await|]. intros _.
  apply asks_then; [apply asks_cache_set|]. intros _. apply asks_ret.
Qed.

Lemma on_miss_asks env u key wanted :
  asks (candidates_of wanted) (on_miss env u key wanted).
Proof.
  unfold on_miss. destruct (url_hostname env u) as [h|].
  2:{ eapply asks_weaken; [apply sublist_nil_l | apply asks_throw]. }
  destruct (fast_path_guard h wanted); [|apply browser_path_asks].
  apply asks_then.
  - unfold fetchCostcoMeta. apply asks_then; [apply (asks_emit (EFetch _))|].
    intros _. apply asks_ret.
  - intros [m|]; [|apply browser_path_asks].
    eapply asks_weaken; [apply sublist_nil_l|].
    unfold static_answer. apply asks_then; [apply asks_cache_set|].
    intros _. apply asks_ret.
Qed.

(** X20: what a request asks of the page is, in order, a part of the
    selectors configured for the fields it names: never another selector,
    never one more often than its field is named, and so never more calls
    of [page.$] than those fields have candidates. *)
Theorem queries_follow_wanted_fields env req s :
  sublist (queried (scrape env req s).2) (candidates_of (wanted_of (fields req)))
  /\ length (queried (scrape env req s).2)
     <= length (candidates_of (wanted_of (fields req))).
Proof.
  assert (H : sublist (queried (scrape env req s).2)
                (candidates_of (wanted_of (fields req)))).
  { destruct (valid_dec req) as [Hv|Hv].
    2:{ rewrite (scrape_refused _ _ _ Hv). apply sublist_nil_l. }
    rewrite (scrape_valid _ _ _ Hv).
    destruct (fresh_hit env s (key_of req)) as [hit|]; [apply sublist_nil_l|].
    destruct (on_miss env (or_empty (url req)) (key_of req)
                (wanted_of (fields req)) (start s)) as [o r] eqn:Hm.
    apply on_miss_asks in Hm. destruct Hm as (evs & L & F).
    cbn in L |- *. now rewrite L. }
  split; [exact H | now apply sublist_length].
Qed.

(** *** What a browser answer can hold *)

Lemma normalize_storable key value : storable (normalize key value) = true.
Proof.
  unfold normalize. destruct (includes "price" key && truthy value); [|reflexivity].
  destruct (parseFloat_kept (comma_to_period (strip (or_empty value))))
    as [[_ ->] | (_ & m & e & _ & He & ->)].
  - apply all_kept_comma_to_period, all_kept_strip.
  - reflexivity.
  - destruct (Parse.overflows m e) eqn:Ho; cbn [isNaN storable]; [reflexivity|].
    rewrite Ho. apply andb_true_intro. split; [now apply Z.leb_le | reflexivity].
Qed.

Lemma obj_set_storable (out : gmap string jsval) key v :
  map_Forall (fun _ x => storable x = true) out ->
  storable v = true ->
  map_Forall (fun _ x => storable x = true) (obj_set out key v).
Proof.
  intros Hout Hv. unfold obj_set. destruct (String.eqb key "__proto__"); [exact Hout|].
  now apply map_Forall_insert_2.
Qed.

Lemma extract_fields_storable env keys : forall out r out' r',
  map_Forall (fun _ x => storable x = true) out ->
  extract_fields env keys out r = (Resolved out', r') ->
  map_Forall (fun _ x => storable x = true) out'.
Proof.
  induction keys as [|key rest IH]; intros out r out' r' Hout H.
  - injection H as <- <-. exact Hout.
  - cbn [extract_fields] in H. destruct (obj_get selectors key) as [cands| |].
    + apply bind_resolved in H. destruct H as (v & r1 & _ & H).
      eapply IH; [|exact H]. apply obj_set_storable; [exact Hout | apply normalize_storable].
    + discriminate H.
    + apply bind_resolved in H. destruct H as (v & r1 & _ & H).
      eapply IH; [|exact H]. apply obj_set_storable; [exact Hout | apply normalize_storable].
Qed.

Lemma values_storable wanted (out : gmap string jsval) :
  map_Forall (fun _ x => storable x = true) out ->
  (forall k, In k wanted -> is_Some (out !! k)) ->
  Forall (fun v => storable v = true) (List.map (value_of out) wanted).
Proof.
  intros Hall Hown. apply List.Forall_forall. intros v Hv.
  apply in_map_iff in Hv. destruct Hv as (k & <- & Hk).
  destruct (Hown k Hk) as [x Hx]. unfold value_of, obj_get. rewrite Hx.
  exact (Hall k x Hx).
Qed.

(** An answer with the Cache-Control header was computed by the browser
    path, from what the extract loop returned. *)
Lemma browser_answer_source env req s resp s' lg :
  scrape env req s = (resp, s', lg) ->
  http_headers resp = [cache_control] ->
  exists out r1 r2,
    extract_fields env (wanted_of (fields req)) ∅ r1 = (Resolved out, r2)
    /\ json resp = JPayload (result_of (wanted_of (fields req)) out).
Proof.
  intros H Hh. destruct (valid_dec req) as [Hv|Hv].
  2:{ rewrite (scrape_refused _ _ _ Hv) in H. injection H as <- <- <-. discriminate Hh. }
  rewrite (scrape_valid _ _ _ Hv) in H.
  destruct (fresh_hit env s (key_of req)) as [hit|].
  { injection H as <- <- <-. discriminate Hh. }
  assert (Hb : forall r0,
             settle (browser_path env (or_empty (url req)) (key_of req)
                       (wanted_of (fields req)) r0) = (resp, s', lg) ->
             exists out r1 r2,
               extract_fields env (wanted_of (fields req)) ∅ r1 = (Resolved out, r2)
               /\ json resp = JPayload (result_of (wanted_of (fields req)) out)).
  { intros r0 Hs. destruct (browser_path _ _ _ _ r0) as [[resp0|e] r1] eqn:Hbp.
    - cbn in Hs. injection Hs as <- <- <-. apply browser_path_payload in Hbp.
      destruct Hbp as (out & r2 & r3 & _ & Hex & ->). eauto.
    - cbn in Hs. injection Hs as <- <- <-. discriminate Hh. }
  unfold on_miss in H. destruct (url_hostname env _) as [h|].
  2:{ cbn in H. injection H as <- <- <-. discriminate Hh. }
  destruct (fast_path_guard h _); [|exact (Hb _ H)].
  unfold bind at 1, fetchCostcoMeta in H. unfold bind at 1, emit, ret in H.
  cbn [store log queries start app] in H.
  destruct (fetched_meta env _) as [m|]; [|exact (Hb _ H)].
  unfold static_answer, settle, bind, cache_set, get_store, put_store, ret in H.
  cbn [store log queries] in H. injection H as <- <- <-. discriminate Hh.
Qed.

(** X21: an answer of the browser path (the one that carries the
    Cache-Control header) holds, in [values] and in [raw], only strings and
    numbers that are neither NaN nor negative (the decimal read in the
    text, or plus infinity for a price too large for a double): no NaN, no
    negative number, no member inherited from [Object.prototype]. *)
Theorem browser_answer_is_storable env req s resp s' lg :
  scrape env req s = (resp, s', lg) ->
  http_headers resp = [cache_control] ->
  exists p, json resp = JPayload p
            /\ Forall (fun v => storable v = true) (values p)
            /\ map_Forall (fun _ v => storable v = true) (raw p).
Proof.
  intros H Hh. destruct (browser_answer_source _ _ _ _ _ _ H Hh)
    as (out & r1 & r2 & Hex & Hj).
  pose proof (extract_fields_storable _ _ _ _ _ _ (map_Forall_empty _) Hex) as Hall.
  apply extract_fields_run in Hex. destruct Hex as [_ Hown].
  eexists. split; [exact Hj|]. split; [|exact Hall].
  apply values_storable; [exact Hall|]. intros k Hk. apply Hown. now left.
Qed.

Lemma browser_answer_is_storable_witness :
  let x := scrape (priced (repeat_char 309 "9")) (request amazon_url "price,title")
             initial_store in
  (exists p, json x.1.1 = JPayload p
             /\ values p = [VNum (Infinity false); VStr EmptyString])
  /\ exists p, json x.1.1 = JPayload p
               /\ Forall (fun v => storable v = true) (values p)
               /\ map_Forall (fun _ v => storable v = true) (raw p).
Proof.
  intros x. split; [eexists; split; vm_compute; reflexivity|].
  apply (browser_answer_is_storable (priced (repeat_char 309 "9"))
           (request amazon_url "price,title") initial_store x.1.1 x.1.2 x.2).
  - subst x. now destruct (scrape _ _ _) as [[? ?] ?].
  - vm_compute. reflexivity.
Defined.

(** The extract loop binds the fields it was given and no other. *)
Lemma extract_fields_keys env keys : forall out r out' r' k,
  extract_fields env keys out r = (Resolved out', r') ->
  is_Some (out' !! k) -> In k keys \/ is_Some (out !! k).
Proof.
  induction keys as [|key rest IH]; intros out r out' r' k H Hk.
  - injection H as <- <-. now right.
  - cbn [extract_fields] in H.
    assert (Hset : forall v, is_Some (obj_set out key v !! k) ->
                             In k (key :: rest) \/ is_Some (out !! k)).
    { intros v. unfold obj_set. destruct (String.eqb key "__proto__"); [now right|].
      destruct (decide (key = k)) as [->|Hne]; [left; now left|].
      rewrite lookup_insert_ne by exact Hne. now right. }
    destruct (obj_get selectors key) as [cands| |]; [|discriminate H|];
      apply bind_resolved in H; destruct H as (v & r1 & _ & H);
      (destruct (IH _ _ _ _ k H Hk) as [Hin|Hs];
       [left; now right | exact (Hset _ Hs)]).
Qed.

Lemma values_of_raw wanted (out : gmap string jsval) :
  (forall k, In k wanted -> is_Some (out !! k)) ->
  Forall2 (fun k v => out !! k = Some v) wanted (List.map (value_of out) wanted).
Proof.
  induction wanted as [|k w IH]; intros Hall; [constructor|].
  cbn [List.map]. constructor.
  - destruct (Hall k (or_introl eq_refl)) as [v Hv].
    unfold value_of, obj_get. now rewrite Hv.
  - apply IH. intros k0 Hk0. apply Hall. now right.
Qed.

(** X22: in an answer of the browser path [raw] has a slot for each field
    the request names and no other slot, and [values] lists those slots in
    the order of [headers]: nothing is filled in from elsewhere. *)
Theorem browser_answer_lists_raw env req s resp s' lg :
  scrape env req s = (resp, s', lg) ->
  http_headers resp = [cache_control] ->
  exists p, json resp = JPayload p
            /\ headers p = wanted_of (fields req)
            /\ (forall k, is_Some (raw p !! k) <-> In k (headers p))
            /\ Forall2 (fun k v => raw p !! k = Some v) (headers p) (values p).
Proof.
  intros H Hh. destruct (browser_answer_source _ _ _ _ _ _ H Hh)
    as (out & r1 & r2 & Hex & Hj).
  pose proof (fun k => extract_fields_keys _ _ _ _ _ _ k Hex) as Hkeys.
  apply extract_fields_run in Hex. destruct Hex as [_ Hown].
  eexists. split; [exact Hj|]. cbn [headers values raw result_of].
  split; [reflexivity|]. split.
  - intros k. split.
    + intros Hk. destruct (Hkeys k Hk) as [Hin|Hs]; [exact Hin|].
      rewrite lookup_empty in Hs. now destruct Hs.
    + intros Hk. apply Hown. now left.
  - apply values_of_raw. intros k Hk. apply Hown. now left.
Qed.

Lemma browser_answer_lists_raw_witness :
  let x := scrape (amazon 0) (request amazon_url "title, price ,title")
             initial_store in
  exists p, json x.1.1 = JPayload p
            /\ headers p = ["title"; "price"; "title"]
            /\ (forall k, is_Some (raw p !! k) <-> In k (headers p))
            /\ Forall2 (fun k v => raw p !! k = Some v) (headers p) (values p).
Proof.
  intros x.
  apply (browser_answer_lists_raw (amazon 0)
           (request amazon_url "title, price ,title") initial_store
           x.1.1 x.1.2 x.2).
  - subst x. now destruct (scrape _ _ _) as [[? ?] ?].
  - vm_compute. reflexivity.
Defined.

(** *** The cache only grows *)

Lemma scrape_keeps_keys env req s k :
  is_Some (cache s !! k) -> is_Some (cache (scrape env req s).1.2 !! k).
Proof.
  intros Hk. destruct (scrape env req s) as [[resp s'] lg] eqn:H. cbn.
  destruct (valid_dec req) as [Hv|Hv].
  2:{ rewrite (scrape_refused _ _ _ Hv) in H. now injection H as <- <- <-. }
  rewrite (scrape_valid _ _ _ Hv) in H.
  destruct (fresh_hit env s (key_of req)) as [hit|].
  { now injection H as <- <- <-. }
  apply on_miss_settles in H. destruct H as [_ H].
  destruct H as [message s' lg Hc | h m Hh Hg Hm | out s' evs Hout Hc Hgo Hn Hcl].
  - now rewrite Hc.
  - unfold store_cache_set. cbn [cache].
    destruct (decide (key_of req = k)) as [->|Hne].
    + rewrite lookup_insert_eq. eauto.
    + now rewrite lookup_insert_ne.
  - rewrite Hc. destruct (decide (key_of req = k)) as [->|Hne].
    + rewrite lookup_insert_eq. eauto.
    + now rewrite lookup_insert_ne.
Qed.

(** X23: nothing is ever taken out of the cache.  A key that is bound stays
    bound through every later request, expired or not, whatever those
    requests are and however they end: the cache is never pruned. *)
Theorem cache_never_shrinks reqs : forall s k,
  is_Some (cache s !! k) -> is_Some (cache (serve reqs s) !! k).
Proof.
  induction reqs as [|[env req] rest IH]; intros s k Hk; [exact Hk|].
  cbn [serve]. apply IH. now apply scrape_keeps_keys.
Qed.

Lemma cache_never_shrinks_witness :
  let req := request amazon_url "price" in
  let first := (scrape (amazon 0) req initial_store).1.2 in
  let later := [(amazon_timeout, request amazon_url "title");
                (amazon 1800000, request amazon_url "rating")] in
  is_Some (cache (serve later first) !! key_of req).
Proof.
  intros req first later.
  apply (cache_never_shrinks later first (key_of req)).
  assert (Ht : entry_t <$> cache first !! key_of req = Some 0%Z)
    by (vm_compute; reflexivity).
  destruct (cache first !! key_of req); [eauto | discriminate Ht].
Defined.

End PayloadFacts.
